(** * The WebGPU remote-object layer of the GPU process, and the remote
      video frame handle of the web process

    A shallow embedding of

    - [Source/WebKit/GPUProcess/graphics/WebGPU/RemoteTexture.cpp],
    - [RemoteBindGroupLayout.cpp],
    - the declarations of [RemoteDevice.h] and [RemoteRenderPassEncoder.h],
    - [Source/WebKit/WebProcess/GPU/media/RemoteVideoFrameProxy.h],

    together with the two stores every remote object refers to,
    [WebGPU::ObjectRegistry] and [WebGPU::ObjectHeap].

    The GPU process handles the messages of one connection on one dispatch
    sequence, so a message is one transition of a state that holds the
    registry, the heap and what has been asked of the native (PAL) objects. *)

From Stdlib Require Import ZArith NArith Bool List String Lia.
From stdpp Require Import base option gmap strings list.

Open Scope N_scope.

(** ** Outcomes

    A member function either runs to its end, or stops the process at a
    failed check, or reads an optional that holds nothing. *)

Inductive Fault : Type :=
| FatalLogicError       (* a store rejects an insertion *)
| AssertionFailure      (* ASSERT(...) with assertions compiled in *)
| EmptyOptionalAccess.  (* operator* of a std::optional without a value:
                          undefined behaviour, no resulting state is given *)

Inductive Outcome (A : Type) : Type :=
| Completed (a : A)
| Faulted (f : Fault).

Arguments Completed {A} a.
Arguments Faulted {A} f.

#[global] Instance Outcome_ret : MRet Outcome := fun A a => Completed a.

#[global] Instance Outcome_bind : MBind Outcome := fun A B k c =>
  match c with
  | Completed a => k a
  | Faulted f => Faulted f
  end.

(** [ASSERT(cond)] of wtf/Assertions.h: checked when assertions are compiled
    in, no code at all otherwise. *)
Definition ASSERT (assertionsEnabled : bool) (cond : bool) : Outcome unit :=
  if assertionsEnabled && negb cond then Faulted AssertionFailure
  else Completed tt.

(** ** Data *)

(** [WebGPUIdentifier] is an ObjectIdentifier: an unsigned integer used as a
    hash key and compared for equality only. *)
Abbreviation WebGPUIdentifier := N (only parsing).

(** A native object of PAL::WebGPU is known to this layer by reference only;
    [BackingRef] stands for the address a [Ref<>] points to. *)
Abbreviation BackingRef := N (only parsing).

Inductive ObjectKind : Type :=
| Device
| Texture
| TextureView
| BindGroupLayout
| BindGroup
| RenderPassEncoder.

#[global] Instance ObjectKind_eq_dec : EqDecision ObjectKind.
Proof. solve_decision. Defined.

(** What the registry stores for an identifier: a typed reference to the
    native object ([std::reference_wrapper<PAL::WebGPU::...>]). *)
Record Object : Type := mkObject {
  objectKind : ObjectKind;
  objectRef : BackingRef
}.

#[global] Instance Object_eq_dec : EqDecision Object.
Proof. solve_decision. Defined.

(** The fields of a remote object ([RemoteTexture], [RemoteBindGroupLayout],
    ...).  [m_objectRegistry] and [m_objectHeap] are references to the two
    stores of the connection; every proxy of a connection holds the same
    two, so they are the stores of the state below and not fields here. *)
Record RemoteObject : Type := mkRemoteObject {
  remoteKind : ObjectKind;
  m_backing : BackingRef;
  m_identifier : WebGPUIdentifier
}.

#[global] Instance RemoteObject_eq_dec : EqDecision RemoteObject.
Proof. solve_decision. Defined.

(** Modelled from the spec: the descriptor types ([WebGPU::TextureViewDescriptor]
    and the like) are declared in headers that are not part of the sources.
    The spec describes a descriptor as "a structure that embeds one or more
    Identifiers"; the identifiers are kept in order next to the label of
    ObjectDescriptorBase. *)
Record Descriptor : Type := mkDescriptor {
  descriptorLabel : string;
  descriptorIdentifiers : list WebGPUIdentifier
}.

(** The PAL-side descriptor: every identifier replaced by the native object
    it names. *)
Record BackingDescriptor : Type := mkBackingDescriptor {
  backingLabel : string;
  backingObjects : list Object
}.

(** Calls made on native objects.  The graphics API is outside this layer; a
    call is recorded with the receiver, the arguments and, for a creating
    call, the reference it returned. *)
Inductive BackingCall : Type :=
| CallCreate (kind : ObjectKind) (descriptor : BackingDescriptor) (result : BackingRef)
| CallTextureCreateView (texture : BackingRef) (descriptor : BackingDescriptor) (result : BackingRef)
| CallTextureDestroy (texture : BackingRef)
| CallTextureSetLabel (texture : BackingRef) (label : string)
| CallBindGroupLayoutSetLabel (layout : BackingRef) (label : string)
| CallRenderPassEncoderSetBindGroup (encoder : BackingRef) (index : N)
    (bindGroup : Object) (dynamicOffsets : option (list N)).

(** The state of the GPU process side of one connection. *)
Record GPUProcess : Type := mkGPUProcess {
  objectRegistry : gmap N Object;         (* ObjectRegistry::m_objects *)
  objectHeap : gmap N RemoteObject;       (* ObjectHeap::m_objects *)
  backingCalls : list BackingCall;        (* most recent first *)
  nextBacking : BackingRef;               (* next native object to be allocated *)
  constructed : list WebGPUIdentifier;    (* every proxy constructor that ran *)
  releasedUnused : list WebGPUIdentifier  (* acknowledgments of releaseUnused *)
}.

Definition initialProcess : GPUProcess :=
  mkGPUProcess ∅ ∅ [] 0 [] [].

Definition setRegistry (r : gmap N Object) (s : GPUProcess) : GPUProcess :=
  mkGPUProcess r (objectHeap s) (backingCalls s) (nextBacking s)
    (constructed s) (releasedUnused s).

Definition setHeap (h : gmap N RemoteObject) (s : GPUProcess) : GPUProcess :=
  mkGPUProcess (objectRegistry s) h (backingCalls s) (nextBacking s)
    (constructed s) (releasedUnused s).

Definition callBacking (c : BackingCall) (s : GPUProcess) : GPUProcess :=
  mkGPUProcess (objectRegistry s) (objectHeap s) (c :: backingCalls s)
    (nextBacking s) (constructed s) (releasedUnused s).

(** A creating call of the native API hands back a reference to a new
    object. *)
Definition allocBacking (s : GPUProcess) : BackingRef * GPUProcess :=
  (nextBacking s,
   mkGPUProcess (objectRegistry s) (objectHeap s) (backingCalls s)
     (N.succ (nextBacking s)) (constructed s) (releasedUnused s)).

Definition noteConstructed (identifier : WebGPUIdentifier) (s : GPUProcess)
  : GPUProcess :=
  mkGPUProcess (objectRegistry s) (objectHeap s) (backingCalls s)
    (nextBacking s) (identifier :: constructed s) (releasedUnused s).

Definition noteReleasedUnused (identifier : WebGPUIdentifier) (s : GPUProcess)
  : GPUProcess :=
  mkGPUProcess (objectRegistry s) (objectHeap s) (backingCalls s)
    (nextBacking s) (constructed s) (identifier :: releasedUnused s).

(** ** ObjectRegistry *)

Module ObjectRegistry.

(** Modelled from the spec: WebGPUObjectRegistry.h/.cpp are not part of the
    sources.  "addObject(id, backingResourceRef) registers a resolver
    entry; fails (rejects) if id already present (protocol violation,
    never expected under correct clients, treated as a fatal logic error,
    not a recoverable one)". *)
Definition addObject (identifier : WebGPUIdentifier) (object : Object)
    (m_objects : gmap N Object) : Outcome (gmap N Object) :=
  match m_objects !! identifier with
  | Some _ => Faulted FatalLogicError
  | None => Completed (<[identifier := object]> m_objects)
  end.

(** Modelled from the spec: "removeObject(id) idempotently removes; calling
    with an absent id is a no-op". *)
Definition removeObject (identifier : WebGPUIdentifier)
    (m_objects : gmap N Object) : gmap N Object :=
  delete identifier m_objects.

(** Modelled from the spec: the resolution of one identifier by the registry
    ("lookup-only map from Identifier to backing resource"), which the
    sources call but do not define; an absent entry gives no result. *)
Definition convertObjectFromBacking (m_objects : gmap N Object)
    (identifier : WebGPUIdentifier) : option Object :=
  m_objects !! identifier.

(** Modelled from the spec: "convertFromBacking(descriptorContainingIds),
    given a structure that embeds one or more Identifiers, resolves each to
    its backing resource; returns an empty/failure result if any
    identifier is unresolved". *)
Definition convertFromBacking (m_objects : gmap N Object)
    (descriptor : Descriptor) : option BackingDescriptor :=
  match mapM (convertObjectFromBacking m_objects)
             (descriptorIdentifiers descriptor) with
  | Some objects => Some (mkBackingDescriptor (descriptorLabel descriptor) objects)
  | None => None
  end.

End ObjectRegistry.

(** ** ObjectHeap *)

Module ObjectHeap.

(** Modelled from the spec: WebGPUObjectHeap.h/.cpp are not part of the
    sources.  "addObject(proxy) inserts, asserting the proxy's Identifier
    is not already present".  The heap is the "map from Identifier to the
    owning proxy object"; the key is the proxy's own identifier.  The
    assertion is part of the contract of the heap: an insertion that
    violates it has no outcome other than the failed assertion. *)
Definition addObject (proxy : RemoteObject)
    (m_objects : gmap N RemoteObject) : Outcome (gmap N RemoteObject) :=
  match m_objects !! m_identifier proxy with
  | Some _ => Faulted AssertionFailure
  | None => Completed (<[m_identifier proxy := proxy]> m_objects)
  end.

(** Modelled from the spec: "removeObject(id) removes the heap entry".  The
    entry is the owning reference of the proxy: the proxy that loses it is
    handed back, and whoever removes it runs the proxy's destructor (see
    [GPUConnection.removeObject]). *)
Definition removeObject (identifier : WebGPUIdentifier)
    (m_objects : gmap N RemoteObject)
  : gmap N RemoteObject * option RemoteObject :=
  (delete identifier m_objects, m_objects !! identifier).

(** Modelled from the spec: "releaseUnused(id): reclamation path for a
    creation message that names an Identifier for which the client already
    released its only reference before the creation was processed; must be
    a pure no-op network-visible acknowledgment that consumes and discards
    the would-be resource without ever materializing a ResourceProxy".
    The stores are left as they are; the acknowledgment is recorded. *)
Definition releaseUnused (identifier : WebGPUIdentifier) (s : GPUProcess)
  : GPUProcess :=
  noteReleasedUnused identifier s.

End ObjectHeap.

(** ** The remote objects *)

Module ResourceProxy.

(** Modelled from the spec: the remote objects whose .cpp files are not part
    of the sources (RemoteTextureView, RemoteDevice, RemoteBindGroup,
    RemoteRenderPassEncoder) follow the "common shape: constructed with
    (backing resource, ObjectRegistry&, ObjectHeap&, Identifier).
    Constructor registers in ObjectRegistry; destructor deregisters". *)
Definition constructor (kind : ObjectKind) (backing : BackingRef)
    (identifier : WebGPUIdentifier) (s : GPUProcess)
  : Outcome (RemoteObject * GPUProcess) :=
  let this := mkRemoteObject kind backing identifier in
  registry ← ObjectRegistry.addObject (m_identifier this)
               (mkObject kind (m_backing this)) (objectRegistry s);
  mret (this, noteConstructed identifier (setRegistry registry s)).

(** Modelled from the spec: the destructor of the common shape,
    "destructor deregisters". *)
Definition destructor (this : RemoteObject) (s : GPUProcess) : GPUProcess :=
  setRegistry (ObjectRegistry.removeObject (m_identifier this) (objectRegistry s)) s.

End ResourceProxy.

Module RemoteTextureView.

(** Modelled from the spec: RemoteTextureView.h/.cpp are not part of the
    sources.  [RemoteTextureView::create], called by
    [RemoteTexture::createView], allocates a proxy of the common shape and
    adopts the reference: it runs the constructor. *)
Definition create (textureView : BackingRef) (identifier : WebGPUIdentifier)
    (s : GPUProcess) : Outcome (RemoteObject * GPUProcess) :=
  ResourceProxy.constructor TextureView textureView identifier s.

End RemoteTextureView.

Module RemoteTexture.

(** RemoteTexture.cpp, lines 41-48. *)
Definition constructor (texture : BackingRef) (identifier : WebGPUIdentifier)
    (s : GPUProcess) : Outcome (RemoteObject * GPUProcess) :=
  let this := mkRemoteObject Texture texture identifier in
  registry ← ObjectRegistry.addObject (m_identifier this)
               (mkObject Texture (m_backing this)) (objectRegistry s);
  mret (this, noteConstructed identifier (setRegistry registry s)).

(** RemoteTexture.cpp, lines 50-53. *)
Definition destructor (this : RemoteObject) (s : GPUProcess) : GPUProcess :=
  setRegistry (ObjectRegistry.removeObject (m_identifier this) (objectRegistry s)) s.

(** RemoteTexture.cpp, lines 65-68: the part of [createView] after the
    descriptor has been converted. *)
Definition createViewConverted (assertionsEnabled : bool) (this : RemoteObject)
    (convertedDescriptor : option BackingDescriptor)
    (identifier : WebGPUIdentifier) (s : GPUProcess) : Outcome GPUProcess :=
  _ ← ASSERT assertionsEnabled (bool_decide (is_Some convertedDescriptor));
  match convertedDescriptor with
  | None => Faulted EmptyOptionalAccess
  | Some converted =>
      let '(textureView, s1) := allocBacking s in
      let s2 := callBacking
                  (CallTextureCreateView (m_backing this) converted textureView) s1 in
      '(remoteTextureView, s3) ← RemoteTextureView.create textureView identifier s2;
      heap ← ObjectHeap.addObject remoteTextureView (objectHeap s3);
      mret (setHeap heap s3)
  end.

(** RemoteTexture.cpp, lines 55-69. *)
Definition createView (assertionsEnabled : bool) (this : RemoteObject)
    (descriptor : option Descriptor) (identifier : WebGPUIdentifier)
    (s : GPUProcess) : Outcome GPUProcess :=
  match descriptor with
  | Some d =>
      let resultDescriptor :=
        ObjectRegistry.convertFromBacking (objectRegistry s) d in
      _ ← ASSERT assertionsEnabled (bool_decide (is_Some resultDescriptor));
      let convertedDescriptor := resultDescriptor in
      match convertedDescriptor with
      | None => mret s
      | Some _ =>
          createViewConverted assertionsEnabled this convertedDescriptor identifier s
      end
  | None =>
      createViewConverted assertionsEnabled this None identifier s
  end.

(** RemoteTexture.cpp, lines 71-74. *)
Definition destroy (this : RemoteObject) (s : GPUProcess) : GPUProcess :=
  callBacking (CallTextureDestroy (m_backing this)) s.

(** RemoteTexture.cpp, lines 76-79. *)
Definition setLabel (this : RemoteObject) (label : string) (s : GPUProcess)
  : GPUProcess :=
  callBacking (CallTextureSetLabel (m_backing this) label) s.

End RemoteTexture.

Module RemoteBindGroupLayout.

(** RemoteBindGroupLayout.cpp, lines 37-44. *)
Definition constructor (bindGroupLayout : BackingRef)
    (identifier : WebGPUIdentifier) (s : GPUProcess)
  : Outcome (RemoteObject * GPUProcess) :=
  let this := mkRemoteObject BindGroupLayout bindGroupLayout identifier in
  registry ← ObjectRegistry.addObject (m_identifier this)
               (mkObject BindGroupLayout (m_backing this)) (objectRegistry s);
  mret (this, noteConstructed identifier (setRegistry registry s)).

(** RemoteBindGroupLayout.cpp, lines 46-49. *)
Definition destructor (this : RemoteObject) (s : GPUProcess) : GPUProcess :=
  setRegistry (ObjectRegistry.removeObject (m_identifier this) (objectRegistry s)) s.

(** RemoteBindGroupLayout.cpp, lines 51-54. *)
Definition setLabel (this : RemoteObject) (label : string) (s : GPUProcess)
  : GPUProcess :=
  callBacking (CallBindGroupLayoutSetLabel (m_backing this) label) s.

End RemoteBindGroupLayout.

Module RemoteRenderPassEncoder.

(** Modelled from the spec: RemoteRenderPassEncoder.cpp is not part of the
    sources; the header declares
    [setBindGroup(Index32, WebGPUIdentifier, std::optional<Vector<BufferDynamicOffset>>&&)].
    "Simple forwarding: decode typed arguments, resolve any embedded
    Identifiers via ObjectRegistry, call the corresponding method on the
    backing resource, no reply required"; on a resolution failure "the
    enclosing operation is abandoned; fire-and-forget operations simply do
    not execute". *)
Definition setBindGroup (this : RemoteObject) (index : N)
    (bindGroup : WebGPUIdentifier) (dynamicOffsets : option (list N))
    (s : GPUProcess) : GPUProcess :=
  match ObjectRegistry.convertObjectFromBacking (objectRegistry s) bindGroup with
  | None => s
  | Some convertedBindGroup =>
      callBacking (CallRenderPassEncoderSetBindGroup (m_backing this) index
                     convertedBindGroup dynamicOffsets) s
  end.

(** RemoteRenderPassEncoder.h, lines 169-172: [create] allocates the proxy
    with [new] and adopts the reference.  The constructor it runs is defined
    outside the sources and has the common shape. *)
Definition create (renderPassEncoder : BackingRef)
    (identifier : WebGPUIdentifier) (s : GPUProcess)
  : Outcome (RemoteObject * GPUProcess) :=
  ResourceProxy.constructor RenderPassEncoder renderPassEncoder identifier s.

End RemoteRenderPassEncoder.

(** ** One connection: object lifetime and message dispatch *)

Module GPUConnection.

(** The constructor of the concrete class of a remote object: the two
    classes defined in the sources, and the common shape for the others. *)
Definition constructProxy (kind : ObjectKind) (backing : BackingRef)
    (identifier : WebGPUIdentifier) (s : GPUProcess)
  : Outcome (RemoteObject * GPUProcess) :=
  match kind with
  | Texture => RemoteTexture.constructor backing identifier s
  | BindGroupLayout => RemoteBindGroupLayout.constructor backing identifier s
  | _ => ResourceProxy.constructor kind backing identifier s
  end.

(** The (virtual) destructor that runs when the last [Ref<>] to a remote
    object goes away. *)
Definition destroyProxy (proxy : RemoteObject) (s : GPUProcess) : GPUProcess :=
  match remoteKind proxy with
  | Texture => RemoteTexture.destructor proxy s
  | BindGroupLayout => RemoteBindGroupLayout.destructor proxy s
  | _ => ResourceProxy.destructor proxy s
  end.

(** Modelled from the spec: removal from the heap, "the trigger that also
    removes the ObjectRegistry entry (each concrete ResourceProxy removes
    its own registry entry in its teardown step, after which the heap drops
    its owning reference)". *)
Definition removeObject (identifier : WebGPUIdentifier) (s : GPUProcess)
  : GPUProcess :=
  let '(heap, dropped) := ObjectHeap.removeObject identifier (objectHeap s) in
  match dropped with
  | Some proxy => setHeap heap (destroyProxy proxy s)
  | None => setHeap heap s
  end.

(** Modelled from the spec: "Create<Kind>(descriptor, newIdentifier)", the
    "child-resource creation" shape whose members ([RemoteDevice::createTexture]
    and the like) are declared in RemoteDevice.h and defined outside the
    sources: "resolve descriptor-embedded identifiers; call the creating
    method on the backing resource; wrap the result in a new ResourceProxy
    of the appropriate concrete kind; insert it into ObjectHeap.  If
    descriptor resolution fails, the operation is a silent no-op". *)
Definition createResource (kind : ObjectKind) (descriptor : Descriptor)
    (newIdentifier : WebGPUIdentifier) (s : GPUProcess) : Outcome GPUProcess :=
  match ObjectRegistry.convertFromBacking (objectRegistry s) descriptor with
  | None => mret s
  | Some converted =>
      let '(backing, s1) := allocBacking s in
      let s2 := callBacking (CallCreate kind converted backing) s1 in
      '(proxy, s3) ← constructProxy kind backing newIdentifier s2;
      heap ← ObjectHeap.addObject proxy (objectHeap s3);
      mret (setHeap heap s3)
  end.

(** The messages of a connection.  All but the first and the last two are
    addressed to a remote object, named by [destination]. *)
Inductive Message : Type :=
| Create (kind : ObjectKind) (descriptor : Descriptor) (newIdentifier : WebGPUIdentifier)
| TextureCreateView (destination : WebGPUIdentifier)
    (descriptor : option Descriptor) (identifier : WebGPUIdentifier)
| TextureDestroy (destination : WebGPUIdentifier)
| TextureSetLabel (destination : WebGPUIdentifier) (label : string)
| BindGroupLayoutSetLabel (destination : WebGPUIdentifier) (label : string)
| RenderPassEncoderSetBindGroup (destination : WebGPUIdentifier) (index : N)
    (bindGroup : WebGPUIdentifier) (dynamicOffsets : option (list N))
| RemoveObject (identifier : WebGPUIdentifier)
| ReleaseUnused (identifier : WebGPUIdentifier).

(** The receiver of a message: the live remote object of the expected class
    under the destination identifier. *)
Definition receiver (kind : ObjectKind) (destination : WebGPUIdentifier)
    (s : GPUProcess) : option RemoteObject :=
  match objectHeap s !! destination with
  | Some proxy => if decide (remoteKind proxy = kind) then Some proxy else None
  | None => None
  end.

(** Modelled from the spec: [didReceiveStreamMessage] is declared in the
    headers and defined in generated code outside the sources; it
    "dispatches on an operation tag to one internal method per supported
    mutation".  A message without a live receiver of the expected class
    reaches no remote object. *)
Definition didReceiveStreamMessage (assertionsEnabled : bool) (message : Message)
    (s : GPUProcess) : Outcome GPUProcess :=
  match message with
  | Create kind descriptor newIdentifier =>
      createResource kind descriptor newIdentifier s
  | TextureCreateView destination descriptor identifier =>
      match receiver Texture destination s with
      | Some this => RemoteTexture.createView assertionsEnabled this descriptor identifier s
      | None => mret s
      end
  | TextureDestroy destination =>
      match receiver Texture destination s with
      | Some this => mret (RemoteTexture.destroy this s)
      | None => mret s
      end
  | TextureSetLabel destination label =>
      match receiver Texture destination s with
      | Some this => mret (RemoteTexture.setLabel this label s)
      | None => mret s
      end
  | BindGroupLayoutSetLabel destination label =>
      match receiver BindGroupLayout destination s with
      | Some this => mret (RemoteBindGroupLayout.setLabel this label s)
      | None => mret s
      end
  | RenderPassEncoderSetBindGroup destination index bindGroup dynamicOffsets =>
      match receiver RenderPassEncoder destination s with
      | Some this =>
          mret (RemoteRenderPassEncoder.setBindGroup this index bindGroup dynamicOffsets s)
      | None => mret s
      end
  | RemoveObject identifier => mret (removeObject identifier s)
  | ReleaseUnused identifier => mret (ObjectHeap.releaseUnused identifier s)
  end.

(** The messages of a stream are handled in the order they were sent. *)
Fixpoint run (assertionsEnabled : bool) (messages : list Message)
    (s : GPUProcess) : Outcome GPUProcess :=
  match messages with
  | [] => mret s
  | message :: rest =>
      s' ← didReceiveStreamMessage assertionsEnabled message s;
      run assertionsEnabled rest s'
  end.

(** The fresh identifier a message asks a remote object to be created
    under, if it is a creation. *)
Definition newIdentifierOf (message : Message) : option WebGPUIdentifier :=
  match message with
  | Create _ _ newIdentifier => Some newIdentifier
  | TextureCreateView _ _ identifier => Some identifier
  | _ => None
  end.

End GPUConnection.

(** ** RemoteDevice: error scopes and completion handlers

    RemoteDevice.h declares [pushErrorScope], [popErrorScope],
    [createComputePipelineAsync] and [createRenderPipelineAsync]; their
    definitions (RemoteDevice.cpp) and the device they forward to are not
    part of the sources. *)

Module RemoteDevice.

(** [PAL::WebGPU::ErrorFilter], from a header outside the sources: the two
    classes of errors a scope can be asked to capture. *)
Inductive ErrorFilter : Type :=
| OutOfMemory
| Validation.

#[global] Instance ErrorFilter_eq_dec : EqDecision ErrorFilter.
Proof. solve_decision. Defined.

(** [WebGPU::Error], from a header outside the sources: an error of one of
    the two classes a filter selects, with its message. *)
Record Error : Type := mkError {
  errorClass : ErrorFilter;
  errorMessage : string
}.

(** An open error scope: its filter and the error it has captured. *)
Record ErrorScope : Type := mkErrorScope {
  scopeFilter : ErrorFilter;
  scopeError : option Error
}.

(** What the completion handler of [popErrorScope] is called with: the
    [std::optional<WebGPU::Error>] of the popped scope, or the report that
    there was no scope to pop. *)
Inductive PopResult : Type :=
| ScopeResult (error : option Error)
| ProtocolError.

(** Modelled from the spec: "pushErrorScope(filter) / popErrorScope(completion)
    bracket a region of operations; popErrorScope must report at most one
    captured error per matching push, following LIFO nesting; calling pop
    with no matching push is a protocol error reported back to the caller,
    not a local fatal".  The open scopes are a stack, innermost first. *)
Definition pushErrorScope (errorFilter : ErrorFilter)
    (scopes : list ErrorScope) : list ErrorScope :=
  mkErrorScope errorFilter None :: scopes.

(** Modelled from the spec: popping gives the result of the innermost open
    scope; "calling pop with no matching push is a protocol error reported
    back to the caller, not a local fatal". *)
Definition popErrorScope (scopes : list ErrorScope)
  : list ErrorScope * PopResult :=
  match scopes with
  | [] => ([], ProtocolError)
  | scope :: rest => (rest, ScopeResult (scopeError scope))
  end.

(** Modelled from the spec: an error generated by an operation of the
    bracketed region is captured by the innermost open scope whose filter
    selects it; a scope keeps the first error it captures ("at most one
    captured error").  An error no scope selects is not captured. *)
Fixpoint generateError (error : Error) (scopes : list ErrorScope)
  : list ErrorScope :=
  match scopes with
  | [] => []
  | scope :: rest =>
      if decide (scopeFilter scope = errorClass error) then
        match scopeError scope with
        | None => mkErrorScope (scopeFilter scope) (Some error) :: rest
        | Some _ => scope :: rest
        end
      else scope :: generateError error rest
  end.

Inductive ScopeEvent : Type :=
| PushErrorScope (errorFilter : ErrorFilter)
| GenerateError (error : Error)
| PopErrorScope.

(** The scopes after a sequence of events and the results handed to the
    completion handlers of the pops, in the order of the pops. *)
Fixpoint runScopes (events : list ScopeEvent) (scopes : list ErrorScope)
  : list ErrorScope * list PopResult :=
  match events with
  | [] => (scopes, [])
  | PushErrorScope errorFilter :: rest =>
      runScopes rest (pushErrorScope errorFilter scopes)
  | GenerateError error :: rest =>
      runScopes rest (generateError error scopes)
  | PopErrorScope :: rest =>
      let '(scopes', result) := popErrorScope scopes in
      let '(final, results) := runScopes rest scopes' in
      (final, result :: results)
  end.

(** N pushes, each followed by the errors generated before the next event of
    the sequence. *)
Definition pushPhase (pushes : list (ErrorFilter * list Error))
  : list ScopeEvent :=
  flat_map (fun p => PushErrorScope (fst p) :: map GenerateError (snd p)) pushes.

(** N pops, each preceded by the errors generated since the event before. *)
Definition popPhase (pops : list (list Error)) : list ScopeEvent :=
  flat_map (fun errors => map GenerateError errors ++ [PopErrorScope]) pops.


(** *** Completion handlers *)

(** A [WTF::CompletionHandler] is a move-only object; it is named here by
    the number of the asynchronous call it was supplied to. *)
Abbreviation CompletionHandler := N (only parsing).

Inductive CompletionOutcome : Type :=
| Succeeded
| Failed.

Record AsyncState : Type := mkAsyncState {
  inFlight : list CompletionHandler;                        (* handed to the backing device *)
  invocations : list (CompletionHandler * CompletionOutcome); (* most recent first *)
  tornDown : bool
}.

Definition initialAsync : AsyncState := mkAsyncState [] [] false.

Inductive AsyncEvent : Type :=
| BeginAsync (resolved : bool) (completionHandler : CompletionHandler)
| BackingFinished (completionHandler : CompletionHandler)
| Teardown.

Definition invoke (completionHandler : CompletionHandler)
    (outcome : CompletionOutcome) (s : AsyncState) : AsyncState :=
  mkAsyncState (inFlight s) ((completionHandler, outcome) :: invocations s)
    (tornDown s).

(** Modelled from the spec: "Asynchronous creation: the forwarding call takes
    a completion callback; the proxy must guarantee the callback fires
    exactly once, on completion of the underlying asynchronous work";
    "operations with a reply must still invoke the completion handler
    exactly once, signaling failure" when descriptor resolution fails
    ([resolved = false]). *)
Definition beginAsync (resolved : bool) (completionHandler : CompletionHandler)
    (s : AsyncState) : AsyncState :=
  if resolved then
    mkAsyncState (completionHandler :: inFlight s) (invocations s) (tornDown s)
  else invoke completionHandler Failed s.

(** Modelled from the spec: "the callback fires exactly once, on completion
    of the underlying asynchronous work".  The backing device finishes the
    work of a call: its handler fires and the call is no longer in flight.
    A completion for a call that is not in flight finds no handler to
    fire. *)
Definition backingFinished (completionHandler : CompletionHandler)
    (s : AsyncState) : AsyncState :=
  if decide (completionHandler ∈ inFlight s) then
    invoke completionHandler Succeeded
      (mkAsyncState (filter (fun h => h ≠ completionHandler) (inFlight s))
         (invocations s) (tornDown s))
  else s.

(** Modelled from the spec: "teardown must still resolve any outstanding
    completion callbacks (with failure) rather than dropping them
    silently"; "every outstanding completion callback must be resolved with
    a failure outcome as part of teardown". *)
Definition teardown (s : AsyncState) : AsyncState :=
  mkAsyncState []
    (map (fun h => (h, Failed)) (inFlight s) ++ invocations s)
    true.

(** Modelled from the spec: "transport/channel loss [is] treated as total
    teardown of all proxies owned by that connection", and "a dropped
    completion is a leak of the caller's continuation state".  After
    teardown the backing device is gone: a completion it reports finds
    nothing in flight, a second teardown finds nothing to resolve, and the
    handler of a call that still arrives is resolved with failure at
    once. *)
Definition asyncStep (s : AsyncState) (event : AsyncEvent) : AsyncState :=
  if tornDown s then
    match event with
    | BeginAsync _ completionHandler => invoke completionHandler Failed s
    | BackingFinished _ => s
    | Teardown => s
    end
  else match event with
       | BeginAsync resolved completionHandler =>
           beginAsync resolved completionHandler s
       | BackingFinished completionHandler =>
           backingFinished completionHandler s
       | Teardown => teardown s
       end.

Definition runAsync (events : list AsyncEvent) (s : AsyncState) : AsyncState :=
  fold_left asyncStep events s.

(** The handlers supplied by a sequence of events. *)
Definition handlersOf (events : list AsyncEvent) : list CompletionHandler :=
  flat_map (fun event => match event with
                         | BeginAsync _ completionHandler => [completionHandler]
                         | _ => []
                         end) events.

(** How often a handler has fired. *)
Definition timesInvoked (completionHandler : CompletionHandler)
    (s : AsyncState) : nat :=
  length (filter (fun i => fst i = completionHandler) (invocations s)).

(** RemoteDevice.h, lines 64-67: [create] allocates the proxy with [new] and
    adopts the reference.  The constructor it runs is defined outside the
    sources and has the common shape. *)
Definition create (device : BackingRef) (identifier : WebGPUIdentifier)
    (s : GPUProcess) : Outcome (RemoteObject * GPUProcess) :=
  ResourceProxy.constructor Device device identifier s.

End RemoteDevice.

(** ** RemoteVideoFrameProxy::Properties and its coders *)

Module RemoteVideoFrameProxy.

(** The types of the fields of [Properties] are declared in headers outside
    the sources; each is a plain value that the coders copy, and only the
    equality of values matters below. *)

(** [RemoteVideoFrameReference]: the identifier of a video frame in the GPU
    process together with the version of the reference. *)
Record RemoteVideoFrameReference : Type := mkReference {
  referenceIdentifier : N;
  referenceVersion : N
}.

(** [WTF::MediaTime]: a rational time value with flags. *)
Record MediaTime : Type := mkMediaTime {
  timeValue : Z;
  timeScale : N;
  timeFlags : N
}.

(** [WebCore::MediaSample::VideoRotation]. *)
Inductive VideoRotation : Type :=
| RotationNone
| RotationUpsideDown
| RotationRight
| RotationLeft.

(** [WebCore::IntSize]. *)
Record IntSize : Type := mkIntSize {
  width : Z;
  height : Z
}.

(** RemoteVideoFrameProxy.h, lines 51-63. *)
Record Properties : Type := mkProperties {
  reference : RemoteVideoFrameReference;
  presentationTime : MediaTime;
  isMirrored : bool;
  rotation : VideoRotation;
  size : IntSize;
  pixelFormat : N   (* uint32_t *)
}.

(** Modelled from the spec: the IPC encoder and decoder are "a way to
    serialize/deserialize typed arguments" outside this layer ("wire
    encoding/decoding of individual argument structures" is out of scope).
    A message body is the sequence of the arguments written to it, each of
    the type it was written with. *)
Inductive Argument : Type :=
| ArgReference (r : RemoteVideoFrameReference)
| ArgMediaTime (t : MediaTime)
| ArgBool (b : bool)
| ArgVideoRotation (r : VideoRotation)
| ArgIntSize (s : IntSize)
| ArgUInt32 (n : N).

(** [encoder << value] appends. *)
Definition Encoder : Type := list Argument.

(** A decoder reads from the front; once a read fails it is invalid and
    every later read fails. *)
Record Decoder : Type := mkDecoder {
  buffer : list Argument;
  isValid : bool
}.

Definition decoderFor (body : list Argument) : Decoder := mkDecoder body true.

(** [decoder >> optionalValue], for the type selected by [project]. *)
Definition decodeArgument {T : Type} (project : Argument -> option T)
    (decoder : Decoder) : Decoder * option T :=
  if isValid decoder then
    match buffer decoder with
    | argument :: rest =>
        match project argument with
        | Some value => (mkDecoder rest true, Some value)
        | None => (mkDecoder (buffer decoder) false, None)
        end
    | [] => (mkDecoder [] false, None)
    end
  else (decoder, None).

Definition asMediaTime (a : Argument) : option MediaTime :=
  match a with ArgMediaTime t => Some t | _ => None end.
Definition asBool (a : Argument) : option bool :=
  match a with ArgBool b => Some b | _ => None end.
Definition asVideoRotation (a : Argument) : option VideoRotation :=
  match a with ArgVideoRotation r => Some r | _ => None end.
Definition asIntSize (a : Argument) : option IntSize :=
  match a with ArgIntSize s => Some s | _ => None end.
Definition asUInt32 (a : Argument) : option N :=
  match a with ArgUInt32 n => Some n | _ => None end.

(** [*optionalValue]. *)
Definition dereference {T : Type} (optionalValue : option T) : Outcome T :=
  match optionalValue with
  | Some value => Completed value
  | None => Faulted EmptyOptionalAccess
  end.

(** RemoteVideoFrameProxy.h, lines 123-130. *)
Definition encode (p : Properties) (encoder : Encoder) : Encoder :=
  encoder ++ [ArgMediaTime (presentationTime p);
              ArgBool (isMirrored p);
              ArgVideoRotation (rotation p);
              ArgIntSize (size p);
              ArgUInt32 (pixelFormat p)].

(** RemoteVideoFrameProxy.h, lines 132-148.  The local [reference] is
    declared empty and is not read from the decoder before it is
    dereferenced. *)
Definition decode (decoder : Decoder) : Outcome (option Properties) :=
  let reference : option RemoteVideoFrameReference := None in
  let '(decoder, presentationTime) := decodeArgument asMediaTime decoder in
  let '(decoder, isMirrored) := decodeArgument asBool decoder in
  let '(decoder, videoRotation) := decodeArgument asVideoRotation decoder in
  let '(decoder, size) := decodeArgument asIntSize decoder in
  let '(decoder, pixelFormat) := decodeArgument asUInt32 decoder in
  if negb (isValid decoder) then Completed None
  else
    r ← dereference reference;
    t ← dereference presentationTime;
    m ← dereference isMirrored;
    v ← dereference videoRotation;
    z ← dereference size;
    f ← dereference pixelFormat;
    mret (Some (mkProperties r t m v z f)).

End RemoteVideoFrameProxy.

Import GPUConnection.

(** ** The race between a creation and the release of its identifier *)

Module CreationRace.

(** The GPU process side of a connection together with the identifiers the
    client has released before their creation was handled. *)
Record Server : Type := mkServer {
  process : GPUProcess;
  releasedEarly : list WebGPUIdentifier
}.

Definition initialServer : Server := mkServer initialProcess [].

(** What reaches the GPU process: the notice that the client has dropped its
    only reference to an identifier, or a message of the stream. *)
Inductive Event : Type :=
| ClientReleased (identifier : WebGPUIdentifier)
| Delivered (message : Message).

(** Modelled from the spec: a remote resource handle is "destroyed when the
    last reference is dropped, at which point a release message is sent; if
    the corresponding creation message had not yet been processed
    server-side, the server must recognize the release".  A release for a
    live proxy removes it from the heap; a release for an identifier the
    heap does not know yet is remembered. *)
Definition clientReleased (identifier : WebGPUIdentifier) (server : Server)
  : Server :=
  match objectHeap (process server) !! identifier with
  | Some _ =>
      mkServer (removeObject identifier (process server)) (releasedEarly server)
  | None =>
      mkServer (process server) (identifier :: releasedEarly server)
  end.

(** Modelled from the spec: [releaseUnused] is the "reclamation path for a
    creation message that names an Identifier for which the client already
    released its only reference before the creation was processed"; it
    "consumes and discards the would-be resource without ever materializing
    a ResourceProxy".  A creation under an identifier released early takes
    that path, and the release is used up; every other message is handled
    as usual. *)
Definition delivered (assertionsEnabled : bool) (message : Message)
    (server : Server) : Outcome Server :=
  match newIdentifierOf message with
  | Some identifier =>
      if decide (identifier ∈ releasedEarly server) then
        mret (mkServer (ObjectHeap.releaseUnused identifier (process server))
                (filter (fun released => released ≠ identifier)
                        (releasedEarly server)))
      else
        s ← didReceiveStreamMessage assertionsEnabled message (process server);
        mret (mkServer s (releasedEarly server))
  | None =>
      s ← didReceiveStreamMessage assertionsEnabled message (process server);
      mret (mkServer s (releasedEarly server))
  end.

Definition step (assertionsEnabled : bool) (event : Event) (server : Server)
  : Outcome Server :=
  match event with
  | ClientReleased identifier => mret (clientReleased identifier server)
  | Delivered message => delivered assertionsEnabled message server
  end.

Fixpoint runEvents (assertionsEnabled : bool) (events : list Event)
    (server : Server) : Outcome Server :=
  match events with
  | [] => mret server
  | event :: rest =>
      server' ← step assertionsEnabled event server;
      runEvents assertionsEnabled rest server'
  end.


End CreationRace.

(** ** Properties of states *)

(** The registry has an entry for an identifier exactly when the heap owns a
    remote object with that identifier. *)
Definition coherent (s : GPUProcess) : Prop :=
  ∀ identifier : N,
    is_Some (objectRegistry s !! identifier) ↔
    ∃ proxy, objectHeap s !! identifier = Some proxy ∧ m_identifier proxy = identifier.

(** What every handled message preserves: a heap entry is filed under the
    identifier of its remote object and the registry resolves that
    identifier to the object's native resource; the registry has no other
    entries; every registered identifier went through a constructor. *)
Definition wellFormed (s : GPUProcess) : Prop :=
  (∀ (identifier : N) proxy,
      objectHeap s !! identifier = Some proxy →
      m_identifier proxy = identifier ∧
      objectRegistry s !! identifier
        = Some (mkObject (remoteKind proxy) (m_backing proxy))) ∧
  (∀ identifier : N,
      is_Some (objectRegistry s !! identifier) →
      is_Some (objectHeap s !! identifier)) ∧
  (∀ identifier : N,
      is_Some (objectRegistry s !! identifier) → identifier ∈ constructed s).

(** An operation that only calls into the native object: from [s] to [s']
    both stores, and with them every remote object and its identifier, stay
    as they were, no constructor runs, and the one thing that happens is the
    call [call]. *)
Definition forwardsOnly (s s' : GPUProcess) (call : BackingCall) : Prop :=
  objectRegistry s' = objectRegistry s ∧
  objectHeap s' = objectHeap s ∧
  constructed s' = constructed s ∧
  releasedUnused s' = releasedUnused s ∧
  nextBacking s' = nextBacking s ∧
  backingCalls s' = call :: backingCalls s.




(** Completion handlers, relative to the handlers [handlers] that the events
    handled so far have brought: no call is in flight twice; a handler has
    fired once or is in flight, and not both, if it was brought, and has
    neither fired nor is in flight if it was not; after teardown nothing is
    in flight. *)
Definition settled (handlers : list N) (s : RemoteDevice.AsyncState) : Prop :=
  NoDup (RemoteDevice.inFlight s) ∧
  (∀ h : N,
      (RemoteDevice.timesInvoked h s
       + (if decide (h ∈ RemoteDevice.inFlight s) then 1 else 0)
       = (if decide (h ∈ handlers) then 1 else 0))%nat) ∧
  (RemoteDevice.tornDown s = true → RemoteDevice.inFlight s = []).

(** A message body that begins with the five arguments [decode] reads, in
    the order and of the types it reads them. *)
Definition hasPropertiesPrefix (body : list RemoteVideoFrameProxy.Argument)
  : bool :=
  match body with
  | RemoteVideoFrameProxy.ArgMediaTime _
    :: RemoteVideoFrameProxy.ArgBool _
    :: RemoteVideoFrameProxy.ArgVideoRotation _
    :: RemoteVideoFrameProxy.ArgIntSize _
    :: RemoteVideoFrameProxy.ArgUInt32 _ :: _ => true
  | _ => false
  end.

(** Two outcomes of an operation that agree on everything but the calls made
    on native objects: the same fault, or states with the same stores and
    the same constructor log. *)
Definition sameStores (a b : Outcome GPUProcess) : Prop :=
  match a, b with
  | Completed s1, Completed s2 =>
      objectRegistry s1 = objectRegistry s2 ∧
      objectHeap s1 = objectHeap s2 ∧
      constructed s1 = constructed s2
  | Faulted f1, Faulted f2 => f1 = f2
  | _, _ => False
  end.

(** * Proofs *)

(** ** The monad of outcomes *)

Lemma bind_Completed {A B} (c : Outcome A) (k : A → Outcome B) (b : B) :
  (c ≫= k) = Completed b → ∃ a, c = Completed a ∧ k a = Completed b.
Proof. destruct c as [a|f]; simpl; [eauto | discriminate]. Qed.

Ltac outcome_inv H :=
  let a := fresh "a" in
  let Ha := fresh "Ha" in
  apply bind_Completed in H as (a & Ha & H).

(** ** Constructors and destructors *)

Lemma addObject_Completed identifier object (m_objects registry : gmap N Object) :
  ObjectRegistry.addObject identifier object m_objects = Completed registry →
  m_objects !! identifier = None ∧ registry = <[identifier := object]> m_objects.
Proof.
  unfold ObjectRegistry.addObject.
  destruct (m_objects !! identifier); [discriminate | intros [= <-]; done].
Qed.

Lemma heap_addObject_Completed proxy (m_objects heap : gmap N RemoteObject) :
  ObjectHeap.addObject proxy m_objects = Completed heap →
  m_objects !! m_identifier proxy = None ∧
  heap = <[m_identifier proxy := proxy]> m_objects.
Proof.
  unfold ObjectHeap.addObject.
  destruct (m_objects !! m_identifier proxy); [discriminate | intros [= <-]; done].
Qed.

(** Every constructor, of RemoteTexture.cpp, of RemoteBindGroupLayout.cpp and
    of the common shape, registers its own identifier and nothing else. *)
Lemma constructProxy_Completed kind backing identifier s proxy s' :
  constructProxy kind backing identifier s = Completed (proxy, s') →
  objectRegistry s !! identifier = None ∧
  proxy = mkRemoteObject kind backing identifier ∧
  s' = noteConstructed identifier
         (setRegistry (<[identifier := mkObject kind backing]> (objectRegistry s)) s).
Proof.
  intros H.
  assert (ResourceProxy.constructor kind backing identifier s = Completed (proxy, s')) as H'.
  { destruct kind; exact H. }
  clear H. unfold ResourceProxy.constructor in H'.
  outcome_inv H'. apply addObject_Completed in Ha as [Hnone ->].
  simpl in H'. injection H' as <- <-. done.
Qed.

(** Every destructor removes its own identifier from the registry and
    nothing else. *)
Lemma destroyProxy_registry proxy s :
  destroyProxy proxy s
  = setRegistry (delete (m_identifier proxy) (objectRegistry s)) s.
Proof. unfold destroyProxy. by destruct (remoteKind proxy). Qed.

(** ** Preservation of well-formedness *)

Lemma wellFormed_initial : wellFormed initialProcess.
Proof.
  repeat split; simpl; intros *; rewrite ?lookup_empty; try done;
    by intros [? ?].
Qed.

Lemma wellFormed_coherent s : wellFormed s → coherent s.
Proof.
  intros (Hheap & Hreg & _) identifier. split.
  - intros [proxy Hp]%Hreg. exists proxy. split; [done|]. by apply Hheap in Hp as [? _].
  - intros (proxy & Hp & _). apply Hheap in Hp as [_ ->]. eauto.
Qed.

(** Well-formedness looks at the two stores and the constructor log only. *)
Lemma wellFormed_ext s s' :
  objectRegistry s' = objectRegistry s →
  objectHeap s' = objectHeap s →
  constructed s' = constructed s →
  wellFormed s → wellFormed s'.
Proof. unfold wellFormed. intros -> -> ->. done. Qed.

Lemma wellFormed_added s s' proxy :
  wellFormed s →
  objectRegistry s !! m_identifier proxy = None →
  objectRegistry s'
    = <[m_identifier proxy := mkObject (remoteKind proxy) (m_backing proxy)]>
        (objectRegistry s) →
  objectHeap s' = <[m_identifier proxy := proxy]> (objectHeap s) →
  constructed s' = m_identifier proxy :: constructed s →
  wellFormed s'.
Proof.
  intros (Hheap & Hreg & Hcons) Hfresh Er Eh Ec.
  unfold wellFormed. rewrite Er, Eh, Ec. repeat split.
  - destruct (decide (m_identifier proxy = identifier)) as [<-|Hne].
    + rewrite lookup_insert_eq in H. by injection H as <-.
    + rewrite lookup_insert_ne in H by done. by apply Hheap in H as [? _].
  - destruct (decide (m_identifier proxy = identifier)) as [<-|Hne].
    + rewrite lookup_insert_eq in H. injection H as <-. by rewrite lookup_insert_eq.
    + rewrite lookup_insert_ne in H by done. rewrite lookup_insert_ne by done.
      by apply Hheap in H as [_ ?].
  - intros identifier. rewrite !lookup_insert_is_Some.
    intros [?|[? ?]]; [by left | right; split; [done | by apply Hreg]].
  - intros identifier. rewrite lookup_insert_is_Some.
    intros [<-|[? ?]]; [left | right; by apply Hcons].
Qed.

Lemma wellFormed_removed s identifier :
  wellFormed s → wellFormed (removeObject identifier s).
Proof.
  intros (Hheap & Hreg & Hcons). unfold removeObject, ObjectHeap.removeObject.
  destruct (objectHeap s !! identifier) as [proxy|] eqn:Hp.
  - rewrite destroyProxy_registry. destruct (Hheap _ _ Hp) as [Hid _].
    rewrite Hid. unfold wellFormed; simpl. repeat split.
    + rewrite lookup_delete_Some in H. destruct H as [_ H]. by apply Hheap in H as [? _].
    + rewrite lookup_delete_Some in H. destruct H as [Hne H].
      rewrite lookup_delete_ne by done. by apply Hheap in H as [_ ?].
    + intros identifier0. rewrite !lookup_delete_is_Some.
      intros [? ?]; split; [done | by apply Hreg].
    + intros identifier0. rewrite lookup_delete_is_Some.
      intros [_ ?]. by apply Hcons.
  - rewrite delete_id by done.
    apply (wellFormed_ext s); [reflexivity..|]. unfold wellFormed; auto.
Qed.

Lemma wellFormed_createViewConverted assertionsEnabled this converted identifier s s' :
  wellFormed s →
  RemoteTexture.createViewConverted assertionsEnabled this converted identifier s
    = Completed s' →
  wellFormed s'.
Proof.
  intros Hwf H. unfold RemoteTexture.createViewConverted in H.
  outcome_inv H. destruct converted as [converted|]; [|discriminate].
  simpl in H. outcome_inv H. destruct a0 as [view s3].
  unfold RemoteTextureView.create in Ha0.
  apply (constructProxy_Completed TextureView) in Ha0 as (Hfresh & -> & ->).
  outcome_inv H. apply heap_addObject_Completed in Ha0 as [_ ->].
  injection H as <-.
  by eapply (wellFormed_added s _ (mkRemoteObject TextureView (nextBacking s) identifier)).
Qed.

Lemma wellFormed_createView assertionsEnabled this descriptor identifier s s' :
  wellFormed s →
  RemoteTexture.createView assertionsEnabled this descriptor identifier s
    = Completed s' →
  wellFormed s'.
Proof.
  intros Hwf H. unfold RemoteTexture.createView in H.
  destruct descriptor as [d|].
  - outcome_inv H.
    destruct (ObjectRegistry.convertFromBacking (objectRegistry s) d) eqn:Hc.
    + by eapply wellFormed_createViewConverted.
    + by injection H as <-.
  - by eapply wellFormed_createViewConverted.
Qed.

Lemma wellFormed_createResource kind descriptor newIdentifier s s' :
  wellFormed s →
  createResource kind descriptor newIdentifier s = Completed s' →
  wellFormed s'.
Proof.
  intros Hwf H. unfold createResource in H.
  destruct (ObjectRegistry.convertFromBacking (objectRegistry s) descriptor) as [converted|].
  - simpl in H. outcome_inv H. destruct a as [proxy s3].
    apply constructProxy_Completed in Ha as (Hfresh & -> & ->).
    outcome_inv H. apply heap_addObject_Completed in Ha as [_ ->].
    injection H as <-.
    by eapply (wellFormed_added s _ (mkRemoteObject kind (nextBacking s) newIdentifier)).
  - by injection H as <-.
Qed.

Lemma wellFormed_didReceiveStreamMessage assertionsEnabled message s s' :
  wellFormed s →
  didReceiveStreamMessage assertionsEnabled message s = Completed s' →
  wellFormed s'.
Proof.
  intros Hwf H. destruct message; simpl in H.
  - by eapply wellFormed_createResource.
  - destruct (receiver Texture destination s).
    + by eapply wellFormed_createView.
    + by injection H as <-.
  - destruct (receiver Texture destination s); injection H as <-; [|done].
    by eapply wellFormed_ext; [..|exact Hwf].
  - destruct (receiver Texture destination s); injection H as <-; [|done].
    by eapply wellFormed_ext; [..|exact Hwf].
  - destruct (receiver BindGroupLayout destination s); injection H as <-; [|done].
    by eapply wellFormed_ext; [..|exact Hwf].
  - destruct (receiver RenderPassEncoder destination s); injection H as <-; [|done].
    unfold RemoteRenderPassEncoder.setBindGroup.
    destruct (ObjectRegistry.convertObjectFromBacking _ _); [|done].
    by eapply wellFormed_ext; [..|exact Hwf].
  - injection H as <-. by apply wellFormed_removed.
  - injection H as <-. by eapply wellFormed_ext; [..|exact Hwf].
Qed.

Lemma wellFormed_run assertionsEnabled messages s s' :
  wellFormed s →
  run assertionsEnabled messages s = Completed s' →
  wellFormed s'.
Proof.
  revert s. induction messages as [|message rest IH]; intros s Hwf H; simpl in H.
  - by injection H as <-.
  - outcome_inv H. eapply IH; [|exact H].
    by eapply wellFormed_didReceiveStreamMessage.
Qed.

(** ** Creation leaves a trace *)



(** ** The claims about the stores *)

(** C1.  Registry/heap coherence: in every state the connection reaches by
    handling messages (with or without assertions compiled in), an identifier
    has an entry in ObjectRegistry if and only if ObjectHeap owns a remote
    object with that identifier.  This rests on the two ends of a proxy's
    life: the constructors of RemoteTexture and RemoteBindGroupLayout
    register the proxy's identifier and touch no other entry, and their
    destructors, run when the heap drops the proxy, remove that identifier
    and touch no other entry. *)
Theorem registry_heap_coherence assertionsEnabled messages s :
  run assertionsEnabled messages initialProcess = Completed s →
  coherent s ∧
  (∀ backing (identifier : N) s0 this s1,
      RemoteTexture.constructor backing identifier s0 = Completed (this, s1) ∨
      RemoteBindGroupLayout.constructor backing identifier s0 = Completed (this, s1) →
      m_identifier this = identifier ∧
      objectRegistry s0 !! identifier = None ∧
      is_Some (objectRegistry s1 !! identifier) ∧
      ∀ other : N, other ≠ identifier →
                   objectRegistry s1 !! other = objectRegistry s0 !! other) ∧
  (∀ this s0 s1,
      s1 = RemoteTexture.destructor this s0 ∨
      s1 = RemoteBindGroupLayout.destructor this s0 →
      objectRegistry s1 !! m_identifier this = None ∧
      ∀ other : N, other ≠ m_identifier this →
                   objectRegistry s1 !! other = objectRegistry s0 !! other).
Proof.
  intros H. split; [|split].
  - apply wellFormed_coherent.
    eapply wellFormed_run; [apply wellFormed_initial | exact H].
  - intros backing identifier s0 this s1 Hctor.
    assert (constructProxy (remoteKind this) backing identifier s0
            = Completed (this, s1) ∧ m_identifier this = identifier)
      as [Hc Hid].
    { destruct Hctor as [Hc|Hc]; pose proof Hc as Hc';
        [apply (constructProxy_Completed Texture) in Hc'
        |apply (constructProxy_Completed BindGroupLayout) in Hc'];
        destruct Hc' as (_ & -> & _); done. }
    apply constructProxy_Completed in Hc as (Hfresh & _ & ->). simpl.
    split; [done|]. split; [done|]. split.
    + rewrite lookup_insert_eq. eauto.
    + intros other Hne. by rewrite lookup_insert_ne.
  - intros this s0 s1 [->| ->]; simpl;
      unfold ObjectRegistry.removeObject;
      (split; [by rewrite lookup_delete_eq
              | intros other Hne; by rewrite lookup_delete_ne]).
Qed.

Lemma registry_heap_coherence_witness :
  ∃ s, run true [Create Texture (mkDescriptor "t" []) 1;
                 TextureCreateView 1 (Some (mkDescriptor "v" [1])) 2;
                 RemoveObject 1;
                 Create BindGroupLayout (mkDescriptor "l" [2]) 3]
         initialProcess = Completed s
       ∧ coherent s.
Proof.
  eexists. split.
  - vm_compute. reflexivity.
  - apply (registry_heap_coherence true
             [Create Texture (mkDescriptor "t" []) 1;
              TextureCreateView 1 (Some (mkDescriptor "v" [1])) 2;
              RemoveObject 1;
              Create BindGroupLayout (mkDescriptor "l" [2]) 3]).
    vm_compute. reflexivity.
Defined.

(** A creation under an identifier that is already registered is rejected by
    the registry, and the run ends there. *)
Example duplicate_identifier_is_rejected :
  run false [Create Texture (mkDescriptor "t" []) 1;
             Create BindGroupLayout (mkDescriptor "l" []) 1] initialProcess
  = Faulted FatalLogicError.
Proof. vm_compute. reflexivity. Qed.

(** [createView] without a descriptor reads the empty [convertedDescriptor]:
    the failed assertion with assertions compiled in, and otherwise the
    undefined dereference, for which the embedding gives no state. *)
Example createView_without_descriptor :
  run false [Create Texture (mkDescriptor "t" []) 1; TextureCreateView 1 None 2]
    initialProcess
  = Faulted EmptyOptionalAccess ∧
  run true [Create Texture (mkDescriptor "t" []) 1; TextureCreateView 1 None 2]
    initialProcess
  = Faulted AssertionFailure.
Proof. split; vm_compute; reflexivity. Qed.

Lemma convertFromBacking_unresolved (m_objects : gmap N Object) descriptor missing :
  missing ∈ descriptorIdentifiers descriptor →
  m_objects !! missing = None →
  ObjectRegistry.convertFromBacking m_objects descriptor = None.
Proof.
  intros Hin Hnone. unfold ObjectRegistry.convertFromBacking.
  destruct (mapM _ _) as [objects|] eqn:E; [|done].
  assert (is_Some (mapM (ObjectRegistry.convertObjectFromBacking m_objects)
                        (descriptorIdentifiers descriptor))) as Hsome by eauto.
  apply mapM_is_Some in Hsome. rewrite Forall_forall in Hsome.
  destruct (Hsome _ Hin) as [object Hobject].
  unfold ObjectRegistry.convertObjectFromBacking in Hobject. congruence.
Qed.

(** C2.  When an identifier embedded in the arguments is absent from
    ObjectRegistry, the operation has no effect.  [RemoteTexture::createView]
    with a descriptor: [convertFromBacking] fails and the function returns at
    [if (!convertedDescriptor) return;] with the state as it was (with
    assertions compiled in, the process stops before that at
    [ASSERT(resultDescriptor)]); no view proxy is constructed, nothing is
    added to the heap or the registry and the backing texture is not called.
    The same holds for the creation messages of the common shape and for
    [RemoteRenderPassEncoder::setBindGroup] naming an unregistered
    identifier. *)
Theorem unresolved_identifier_is_no_op
    assertionsEnabled (this encoder : RemoteObject) (descriptor : Descriptor)
    (identifier missing : N) (kind : ObjectKind)
    (index : N) (dynamicOffsets : option (list N)) (s : GPUProcess) :
  missing ∈ descriptorIdentifiers descriptor →
  objectRegistry s !! missing = None →
  RemoteTexture.createView assertionsEnabled this (Some descriptor) identifier s
    = (if assertionsEnabled then Faulted AssertionFailure else Completed s) ∧
  createResource kind descriptor identifier s = Completed s ∧
  RemoteRenderPassEncoder.setBindGroup encoder index missing dynamicOffsets s = s.
Proof.
  intros Hin Hnone.
  pose proof (convertFromBacking_unresolved _ _ _ Hin Hnone) as Hc.
  repeat split.
  - unfold RemoteTexture.createView. rewrite Hc.
    by destruct assertionsEnabled.
  - unfold createResource. by rewrite Hc.
  - unfold RemoteRenderPassEncoder.setBindGroup,
      ObjectRegistry.convertObjectFromBacking. by rewrite Hnone.
Qed.

Lemma unresolved_identifier_is_no_op_witness :
  RemoteTexture.createView false (mkRemoteObject Texture 0 1)
    (Some (mkDescriptor "view" [7])) 2 initialProcess
    = Completed initialProcess ∧
  createResource BindGroup (mkDescriptor "group" [7]) 2 initialProcess
    = Completed initialProcess ∧
  RemoteRenderPassEncoder.setBindGroup (mkRemoteObject RenderPassEncoder 3 4)
    0 7 None initialProcess = initialProcess.
Proof.
  apply (unresolved_identifier_is_no_op false (mkRemoteObject Texture 0 1)
           (mkRemoteObject RenderPassEncoder 3 4)
           (mkDescriptor "view" [7]) 2 7 BindGroup 0 None initialProcess).
  - simpl. apply list_elem_of_singleton. reflexivity.
  - reflexivity.
Defined.

(** C3, as the claim states it, fails: a texture is created under identifier
    1 and its [destroy] message is handled; identifier 1 still resolves in
    the heap and in the registry. *)
Lemma destroy_removes_entries_counterexample :
  ∃ s, run false [Create Texture (mkDescriptor "t" []) 1; TextureDestroy 1]
         initialProcess = Completed s ∧
       objectHeap s !! 1 = Some (mkRemoteObject Texture 0 1) ∧
       objectRegistry s !! 1 = Some (mkObject Texture 0) ∧
       ¬ (objectHeap s !! 1 = None ∧ objectRegistry s !! 1 = None).
Proof.
  eexists. split; [vm_compute; reflexivity|].
  split; [vm_compute; reflexivity|].
  split; [vm_compute; reflexivity|].
  intros [Hheap _]. vm_compute in Hheap. discriminate.
Qed.

Lemma receiver_Some kind destination s proxy :
  receiver kind destination s = Some proxy →
  objectHeap s !! destination = Some proxy ∧ remoteKind proxy = kind.
Proof.
  unfold receiver. destruct (objectHeap s !! destination) as [p|]; [|done].
  destruct (decide (remoteKind p = kind)); [|done]. by intros [= <-].
Qed.

Lemma removeObject_lookup s identifier :
  wellFormed s →
  objectHeap (removeObject identifier s) !! identifier = None ∧
  objectRegistry (removeObject identifier s) !! identifier = None.
Proof.
  intros (Hheap & Hreg & _). unfold removeObject, ObjectHeap.removeObject.
  destruct (objectHeap s !! identifier) as [proxy|] eqn:Hp.
  - rewrite destroyProxy_registry. destruct (Hheap _ _ Hp) as [-> _]. simpl.
    by rewrite !lookup_delete_eq.
  - simpl. rewrite lookup_delete_eq. split; [done|].
    destruct (objectRegistry s !! identifier) eqn:Hr; [|done].
    destruct (Hreg identifier) as [? ?]; [eauto | congruence].
Qed.

Lemma removeObject_other s identifier other :
  wellFormed s → other ≠ identifier →
  objectHeap (removeObject identifier s) !! other = objectHeap s !! other ∧
  objectRegistry (removeObject identifier s) !! other = objectRegistry s !! other.
Proof.
  intros (Hheap & _ & _) Hne. unfold removeObject, ObjectHeap.removeObject.
  destruct (objectHeap s !! identifier) as [proxy|] eqn:Hp.
  - rewrite destroyProxy_registry. destruct (Hheap _ _ Hp) as [-> _]. simpl.
    by rewrite !lookup_delete_ne.
  - simpl. by rewrite lookup_delete_ne.
Qed.

(** C3, amended.  Handling [destroy] for a live texture proxy calls [destroy]
    on the backing texture and removes nothing: the identifier still
    resolves in ObjectHeap and in ObjectRegistry.  The two entries go when
    the proxy is removed from ObjectHeap, whose dropped reference runs the
    destructor; after that the identifier resolves in neither store. *)
Theorem destroy_forwards_and_removal_unregisters
    assertionsEnabled messages s (T : N) texture :
  run assertionsEnabled messages initialProcess = Completed s →
  receiver Texture T s = Some texture →
  ∃ s1 s2,
    didReceiveStreamMessage assertionsEnabled (TextureDestroy T) s = Completed s1 ∧
    forwardsOnly s s1 (CallTextureDestroy (m_backing texture)) ∧
    objectHeap s1 !! T = Some texture ∧
    is_Some (objectRegistry s1 !! T) ∧
    didReceiveStreamMessage assertionsEnabled (RemoveObject T) s1 = Completed s2 ∧
    objectHeap s2 !! T = None ∧
    objectRegistry s2 !! T = None.
Proof.
  intros Hrun Hrecv.
  assert (wellFormed s) as Hwf
    by (eapply wellFormed_run; [apply wellFormed_initial | exact Hrun]).
  destruct (receiver_Some _ _ _ _ Hrecv) as [Hheap _].
  exists (RemoteTexture.destroy texture s),
         (removeObject T (RemoteTexture.destroy texture s)).
  assert (wellFormed (RemoteTexture.destroy texture s)) as Hwf1
    by (by apply (wellFormed_ext s)).
  split; [simpl; by rewrite Hrecv|].
  split; [by repeat split|].
  split; [done|].
  split; [destruct Hwf as (Hh & _ & _); destruct (Hh _ _ Hheap) as [_ ?]; simpl; eauto|].
  split; [done|].
  by apply removeObject_lookup.
Qed.

Lemma destroy_forwards_and_removal_unregisters_witness :
  ∃ s1 s2,
    didReceiveStreamMessage false (TextureDestroy 1)
      (callBacking (CallCreate Texture (mkBackingDescriptor "t" []) 0)
         (mkGPUProcess {[1 := mkObject Texture 0]}
            {[1 := mkRemoteObject Texture 0 1]} [] 1 [1] []))
      = Completed s1 ∧
    forwardsOnly
      (callBacking (CallCreate Texture (mkBackingDescriptor "t" []) 0)
         (mkGPUProcess {[1 := mkObject Texture 0]}
            {[1 := mkRemoteObject Texture 0 1]} [] 1 [1] []))
      s1 (CallTextureDestroy 0) ∧
    objectHeap s1 !! 1 = Some (mkRemoteObject Texture 0 1) ∧
    is_Some (objectRegistry s1 !! 1) ∧
    didReceiveStreamMessage false (RemoveObject 1) s1 = Completed s2 ∧
    objectHeap s2 !! 1 = None ∧
    objectRegistry s2 !! 1 = None.
Proof.
  apply (destroy_forwards_and_removal_unregisters false
           [Create Texture (mkDescriptor "t" []) 1] _ 1
           (mkRemoteObject Texture 0 1)).
  - vm_compute. reflexivity.
  - vm_compute. reflexivity.
Defined.

(** C8.  A texture proxy [T] creates the view proxy [V] with [createView];
    then [T] is removed from the heap and its destructor runs.  [T]'s
    entries are gone, [V]'s heap entry and registry entry are what they
    were, the destructor of [T] removed [T]'s identifier and no other, and
    [V] can be removed on its own afterwards.  Handling [destroy] for [T]
    does not touch the entries of [V] either. *)
Theorem parent_removal_keeps_child
    assertionsEnabled messages s (T V : N) texture descriptor s1 view :
  run assertionsEnabled messages initialProcess = Completed s →
  receiver Texture T s = Some texture →
  objectHeap s !! V = None →
  RemoteTexture.createView assertionsEnabled texture descriptor V s = Completed s1 →
  objectHeap s1 !! V = Some view →
  let s2 := removeObject T s1 in
  let s3 := removeObject V s2 in
  (objectHeap s2 !! T = None ∧ objectRegistry s2 !! T = None) ∧
  (objectHeap s2 !! V = Some view ∧
   objectRegistry s2 !! V = objectRegistry s1 !! V ∧
   is_Some (objectRegistry s2 !! V)) ∧
  objectRegistry (RemoteTexture.destructor texture s1) = delete T (objectRegistry s1) ∧
  (objectHeap (RemoteTexture.destroy texture s1) !! V = Some view ∧
   objectRegistry (RemoteTexture.destroy texture s1) !! V = objectRegistry s1 !! V) ∧
  (objectHeap s3 !! V = None ∧ objectRegistry s3 !! V = None).
Proof.
  intros Hrun Hrecv Hfresh Hcreate Hview s2 s3.
  assert (wellFormed s) as Hwf
    by (eapply wellFormed_run; [apply wellFormed_initial | exact Hrun]).
  assert (wellFormed s1) as Hwf1 by (by eapply wellFormed_createView).
  assert (wellFormed s2) as Hwf2 by (by apply wellFormed_removed).
  destruct (receiver_Some _ _ _ _ Hrecv) as [HT _].
  assert (V ≠ T) as Hne by congruence.
  destruct Hwf as (Hh & _ & _). destruct (Hh _ _ HT) as [HidT _].
  destruct (removeObject_other s1 T V Hwf1 Hne) as [Eh Er].
  split; [by apply removeObject_lookup|].
  split.
  { subst s2. rewrite Eh, Er. repeat split; [done|].
    destruct Hwf1 as (Hh1 & _ & _). destruct (Hh1 _ _ Hview) as [_ ->]. eauto. }
  split; [unfold RemoteTexture.destructor; simpl; by rewrite HidT|].
  split; [done|].
  by apply removeObject_lookup.
Qed.

Lemma parent_removal_keeps_child_witness :
  ∃ s s1,
    run false [Create Texture (mkDescriptor "t" []) 1] initialProcess = Completed s ∧
    RemoteTexture.createView false (mkRemoteObject Texture 0 1)
      (Some (mkDescriptor "v" [])) 2 s = Completed s1 ∧
    (objectHeap (removeObject 1 s1) !! 1 = None ∧
     objectRegistry (removeObject 1 s1) !! 1 = None) ∧
    (objectHeap (removeObject 1 s1) !! 2 = Some (mkRemoteObject TextureView 1 2) ∧
     objectRegistry (removeObject 1 s1) !! 2 = objectRegistry s1 !! 2 ∧
     is_Some (objectRegistry (removeObject 1 s1) !! 2)) ∧
    objectRegistry (RemoteTexture.destructor (mkRemoteObject Texture 0 1) s1)
      = delete 1 (objectRegistry s1) ∧
    (objectHeap (RemoteTexture.destroy (mkRemoteObject Texture 0 1) s1) !! 2
       = Some (mkRemoteObject TextureView 1 2) ∧
     objectRegistry (RemoteTexture.destroy (mkRemoteObject Texture 0 1) s1) !! 2
       = objectRegistry s1 !! 2) ∧
    (objectHeap (removeObject 2 (removeObject 1 s1)) !! 2 = None ∧
     objectRegistry (removeObject 2 (removeObject 1 s1)) !! 2 = None).
Proof.
  eexists. eexists.
  split; [vm_compute; reflexivity|].
  split; [vm_compute; reflexivity|].
  eapply (parent_removal_keeps_child false
            [Create Texture (mkDescriptor "t" []) 1] _ 1 2
           (mkRemoteObject Texture 0 1) (Some (mkDescriptor "v" [])) _
           (mkRemoteObject TextureView 1 2)).
  - vm_compute. reflexivity.
  - vm_compute. reflexivity.
  - vm_compute. reflexivity.
  - vm_compute. reflexivity.
  - vm_compute. reflexivity.
Defined.

(** C10.  The forwarding operations of RemoteTexture.cpp and
    RemoteBindGroupLayout.cpp that take no fresh identifier ([destroy],
    [setLabel]) make one call on the proxy's backing resource and change
    nothing else: ObjectRegistry and ObjectHeap, and so every remote object
    with its identifier, are as before; nothing is added, removed or
    remapped.  Handling the message of such an operation always completes
    and leaves the two stores as they were, whether or not the destination
    names a live proxy. *)
Theorem forwarding_leaves_stores_unchanged
    assertionsEnabled (this : RemoteObject) (destination : N) (label : string)
    (s : GPUProcess) :
  (forwardsOnly s (RemoteTexture.destroy this s)
     (CallTextureDestroy (m_backing this)) ∧
   forwardsOnly s (RemoteTexture.setLabel this label s)
     (CallTextureSetLabel (m_backing this) label) ∧
   forwardsOnly s (RemoteBindGroupLayout.setLabel this label s)
     (CallBindGroupLayoutSetLabel (m_backing this) label)) ∧
  (∀ message,
      message = TextureDestroy destination ∨
      message = TextureSetLabel destination label ∨
      message = BindGroupLayoutSetLabel destination label →
      ∃ s', didReceiveStreamMessage assertionsEnabled message s = Completed s' ∧
            objectRegistry s' = objectRegistry s ∧
            objectHeap s' = objectHeap s ∧
            constructed s' = constructed s).
Proof.
  split; [by repeat split|].
  intros message [->|[->| ->]]; simpl.
  - destruct (receiver Texture destination s); eexists; by repeat split.
  - destruct (receiver Texture destination s); eexists; by repeat split.
  - destruct (receiver BindGroupLayout destination s); eexists; by repeat split.
Qed.

(** ** The race between creation and release *)












(** Without the early release the same creation constructs the proxy; with
    the release after the creation the proxy is created and then removed. *)
Example creation_without_early_release :
  ∃ server,
    CreationRace.runEvents false
      [CreationRace.Delivered (Create Texture (mkDescriptor "u" []) 2)]
      CreationRace.initialServer = Completed server ∧
    is_Some (objectHeap (CreationRace.process server) !! 2) ∧
    constructed (CreationRace.process server) = [2].
Proof. eexists. split; [vm_compute; reflexivity|]. split; [vm_compute; eauto | reflexivity]. Qed.

Example creation_then_release :
  ∃ server,
    CreationRace.runEvents false
      [CreationRace.Delivered (Create Texture (mkDescriptor "u" []) 2);
       CreationRace.ClientReleased 2]
      CreationRace.initialServer = Completed server ∧
    objectHeap (CreationRace.process server) !! 2 = None ∧
    objectRegistry (CreationRace.process server) !! 2 = None ∧
    constructed (CreationRace.process server) = [2].
Proof. eexists. split; [vm_compute; reflexivity|]. repeat split. Qed.

(** ** RemoteVideoFrameProxy::Properties *)

Import RemoteVideoFrameProxy.

Lemma decode_never_yields_Properties decoder q :
  decode decoder ≠ Completed (Some q).
Proof.
  unfold decode.
  destruct (decodeArgument asMediaTime decoder) as [d1 t].
  destruct (decodeArgument asBool d1) as [d2 m].
  destruct (decodeArgument asVideoRotation d2) as [d3 v].
  destruct (decodeArgument asIntSize d3) as [d4 z].
  destruct (decodeArgument asUInt32 d4) as [d5 f].
  destruct (negb (isValid d5)); simpl; discriminate.
Qed.

(** C4, evaluated on the code.  For every [Properties] value [p], [encode]
    writes five arguments and not the reference, so two values that differ
    in the reference only have the same encoding; [decode] of the encoding
    reads the five arguments back, finds the decoder valid and dereferences
    the optional [reference] it never filled.  No input makes [decode]
    yield a [Properties] value: the round trip the claim states does not
    take place. *)
Theorem Properties_encode_decode_drops_reference (p : Properties) :
  encode p [] = [ArgMediaTime (presentationTime p); ArgBool (isMirrored p);
                 ArgVideoRotation (rotation p); ArgIntSize (size p);
                 ArgUInt32 (pixelFormat p)] ∧
  (∀ r, encode (mkProperties r (presentationTime p) (isMirrored p) (rotation p)
                  (size p) (pixelFormat p)) [] = encode p []) ∧
  decode (decoderFor (encode p [])) = Faulted EmptyOptionalAccess ∧
  decode (decoderFor (encode p [])) ≠ Completed (Some p).
Proof.
  repeat split.
  apply decode_never_yields_Properties.
Qed.

Example Properties_round_trip_fails :
  decode (decoderFor (encode
     (mkProperties (mkReference 1 0) (mkMediaTime 0 1 1) false RotationNone
        (mkIntSize 640 480) 875704438) []))
  = Faulted EmptyOptionalAccess.
Proof. reflexivity. Qed.

(** ** Error scopes *)

Import RemoteDevice.












Example errorScopes_example :
  runScopes
    (pushPhase [(Validation, [mkError OutOfMemory "a"]);
                (OutOfMemory, [mkError Validation "b"])]
     ++ popPhase [[mkError OutOfMemory "c"]; []] ++ [PopErrorScope]) []
  = ([], [ScopeResult (Some (mkError OutOfMemory "c"));
          ScopeResult (Some (mkError Validation "b"));
          ProtocolError]).
Proof. reflexivity. Qed.

(** ** Completion handlers *)

Lemma timesInvoked_invoke h h' outcome s :
  timesInvoked h (invoke h' outcome s)
  = if decide (h' = h) then S (timesInvoked h s) else timesInvoked h s.
Proof.
  unfold timesInvoked, invoke. simpl. rewrite filter_cons. simpl.
  by destruct (decide (h' = h)).
Qed.

Lemma timesInvoked_failed_all h (handlers : list N) :
  NoDup handlers →
  length (filter (fun i : N * CompletionOutcome => fst i = h)
                 (map (fun x => (x, Failed)) handlers))
  = if decide (h ∈ handlers) then 1%nat else 0%nat.
Proof.
  induction handlers as [|x handlers IH]; intros Hnodup; simpl.
  - destruct (decide (h ∈ [])) as [Hin|]; [|done].
    by apply elem_of_nil in Hin.
  - apply NoDup_cons in Hnodup as [Hx Hnodup]. rewrite filter_cons. simpl.
    destruct (decide (x = h)) as [->|Hne]; simpl; rewrite (IH Hnodup).
    + destruct (decide (h ∈ handlers)); [done|].
      destruct (decide (h ∈ h :: handlers)) as [|Hout]; [done|].
      destruct Hout. by left.
    + destruct (decide (h ∈ handlers)) as [Hin|Hout].
      * destruct (decide (h ∈ x :: handlers)) as [|Hout]; [done|].
        destruct Hout. by right.
      * destruct (decide (h ∈ x :: handlers)) as [Hin|]; [|done].
        apply elem_of_cons in Hin as [->|?]; done.
Qed.

Lemma timesInvoked_teardown h s :
  NoDup (inFlight s) →
  timesInvoked h (teardown s)
  = ((if decide (h ∈ inFlight s) then 1 else 0) + timesInvoked h s)%nat.
Proof.
  intros Hnodup. unfold timesInvoked, teardown. simpl.
  rewrite filter_app, length_app. by rewrite timesInvoked_failed_all.
Qed.

Lemma handlersOf_cons event events :
  handlersOf (event :: events) = handlersOf [event] ++ handlersOf events.
Proof. unfold handlersOf. simpl. by rewrite app_nil_r. Qed.

Lemma handlersOf_app before after :
  handlersOf (before ++ after) = handlersOf before ++ handlersOf after.
Proof. unfold handlersOf. apply flat_map_app. Qed.

Lemma runAsync_app before after s :
  runAsync (before ++ after) s = runAsync after (runAsync before s).
Proof. unfold runAsync. apply fold_left_app. Qed.

(** The membership tests of [settled], decided. *)
Ltac decide_memberships :=
  repeat match goal with
         | |- context [decide (?x ∈ ?l)] => destruct (decide (x ∈ l))
         | H : context [decide (?x ∈ ?l)] |- _ => destruct (decide (x ∈ l))
         end.

Lemma settled_inFlight handlers s h :
  settled handlers s → h ∈ inFlight s → h ∈ handlers ∧ timesInvoked h s = 0%nat.
Proof.
  intros (_ & Hcount & _) Hin. specialize (Hcount h).
  decide_memberships; try done; split; try done; lia.
Qed.

Lemma settled_fresh handlers s h :
  settled handlers s → h ∉ handlers →
  (h ∉ inFlight s) ∧ timesInvoked h s = 0%nat.
Proof.
  intros (_ & Hcount & _) Hout. specialize (Hcount h).
  decide_memberships; try done; split; try done; lia.
Qed.

Lemma settled_asyncStep handlers s event :
  settled handlers s →
  (∀ h, h ∈ handlersOf [event] → h ∉ handlers) →
  settled (handlers ++ handlersOf [event]) (asyncStep s event).
Proof.
  intros Hsettled Hfresh.
  pose proof Hsettled as (Hnodup & Hcount & Htorn).
  unfold asyncStep. destruct (tornDown s) eqn:Etorn.
  - destruct event as [resolved h'|h'|]; simpl;
      [|by rewrite app_nil_r..].
    destruct (settled_fresh _ _ h' Hsettled) as [Hnot Hzero];
      [apply Hfresh; simpl; by left|].
    assert (h' ∉ handlers) as Hnew by (apply Hfresh; simpl; by left).
    split; [done|]. split; [|simpl; by rewrite Etorn].
    intros h. rewrite timesInvoked_invoke. simpl. specialize (Hcount h).
    destruct (decide (h' = h)) as [<-|Hne].
    + destruct (decide (h' ∈ handlers ++ [h'])) as [_|Hout];
        [|destruct Hout; apply elem_of_app; right; by left].
      destruct (decide (h' ∈ inFlight s)); [done|]. lia.
    + destruct (decide (h ∈ handlers ++ [h'])) as [Hin|Hout].
      * apply elem_of_app in Hin as [Hin|Hin];
          [|apply list_elem_of_singleton in Hin; congruence].
        destruct (decide (h ∈ handlers)); [done|done].
      * destruct (decide (h ∈ handlers)) as [Hin|_]; [|done].
        destruct Hout. apply elem_of_app. by left.
  - destruct event as [resolved h'|h'|]; simpl.
    + destruct (settled_fresh _ _ h' Hsettled) as [Hnot Hzero];
        [apply Hfresh; simpl; by left|].
      assert (h' ∉ handlers) as Hnew by (apply Hfresh; simpl; by left).
      assert (∀ h, h ≠ h' →
                (if decide (h ∈ handlers ++ [h']) then 1 else 0)%nat
                = (if decide (h ∈ handlers) then 1 else 0)%nat) as Hother.
      { intros h Hne. destruct (decide (h ∈ handlers ++ [h'])) as [Hin|Hout];
          destruct (decide (h ∈ handlers)) as [Hin'|Hout']; try done.
        - apply elem_of_app in Hin as [?|Hin]; [done|].
          by apply list_elem_of_singleton in Hin.
        - destruct Hout. apply elem_of_app. by left. }
      assert ((if decide (h' ∈ handlers ++ [h']) then 1 else 0)%nat = 1%nat)
        as Hself.
      { destruct (decide (h' ∈ handlers ++ [h'])) as [|Hout]; [done|].
        destruct Hout. apply elem_of_app. right. by left. }
      unfold beginAsync. destruct resolved.
      * split; [simpl; by apply NoDup_cons|].
        split; [|simpl; by rewrite Etorn].
        intros h. unfold timesInvoked. simpl. fold (timesInvoked h s).
        destruct (decide (h = h')) as [->|Hne].
        -- rewrite Hself, Hzero.
           destruct (decide (h' ∈ h' :: inFlight s)) as [|Hout]; [done|].
           destruct Hout. by left.
        -- rewrite (Hother h Hne). specialize (Hcount h).
           destruct (decide (h ∈ h' :: inFlight s)) as [Hin|Hout];
             destruct (decide (h ∈ inFlight s)) as [Hin'|Hout']; try done.
           ++ apply elem_of_cons in Hin as [?|?]; done.
           ++ destruct Hout. by right.
      * split; [done|]. split; [|simpl; by rewrite Etorn].
        intros h. rewrite timesInvoked_invoke. simpl.
        destruct (decide (h' = h)) as [<-|Hne].
        -- rewrite Hself, Hzero. by destruct (decide (h' ∈ inFlight s)).
        -- rewrite (Hother h) by congruence. apply Hcount.
    + rewrite app_nil_r. unfold backingFinished.
      destruct (decide (h' ∈ inFlight s)) as [Hin|Hout]; [|exact Hsettled].
      destruct (settled_inFlight _ _ _ Hsettled Hin) as [Hbrought Hzero].
      split; [simpl; by apply NoDup_filter|].
      split; [|simpl; by rewrite Etorn].
      intros h. rewrite timesInvoked_invoke. simpl.
      unfold timesInvoked at 1 2. simpl. fold (timesInvoked h s).
      specialize (Hcount h).
      destruct (decide (h' = h)) as [<-|Hne].
      * rewrite Hzero.
        destruct (decide (h' ∈ filter (fun x => x ≠ h') (inFlight s))) as [Hf|_].
        -- apply list_elem_of_filter in Hf as [? _]. done.
        -- by destruct (decide (h' ∈ handlers)).
      * destruct (decide (h ∈ filter (fun x => x ≠ h') (inFlight s))) as [Hf|Hf];
          destruct (decide (h ∈ inFlight s)) as [Hin'|Hout']; try done.
        -- apply list_elem_of_filter in Hf as [_ ?]. done.
        -- destruct Hf. apply list_elem_of_filter. split; [congruence|done].
    + rewrite app_nil_r.
      split; [simpl; constructor|]. split; [|done].
      intros h. rewrite timesInvoked_teardown by done. simpl.
      specialize (Hcount h).
      destruct (decide (h ∈ [])) as [Hin|_]; [by apply elem_of_nil in Hin|].
      lia.
Qed.

Lemma settled_initial : settled [] initialAsync.
Proof.
  split; [constructor|]. split; [|done].
  intros h. unfold timesInvoked. simpl.
  by destruct (decide (h ∈ [])).
Qed.

Lemma settled_runAsync events handlers s :
  settled handlers s →
  NoDup (handlers ++ handlersOf events) →
  settled (handlers ++ handlersOf events) (runAsync events s).
Proof.
  revert handlers s.
  induction events as [|event events IH]; intros handlers s Hs Hnodup.
  - simpl. by rewrite app_nil_r.
  - rewrite handlersOf_cons, app_assoc in Hnodup |- *. simpl.
    apply IH; [|done].
    apply settled_asyncStep; [done|].
    intros h Hin Hold.
    apply NoDup_app in Hnodup as (Hnodup & _ & _).
    apply NoDup_app in Hnodup as (_ & Hdisjoint & _).
    by apply (Hdisjoint h).
Qed.

Lemma settled_run_initial events :
  NoDup (handlersOf events) →
  settled (handlersOf events) (runAsync events initialAsync).
Proof.
  intros Hnodup.
  apply (settled_runAsync events [] initialAsync); [apply settled_initial | done].
Qed.

(** What has fired stays fired. *)
Lemma invocations_asyncStep s event i :
  i ∈ invocations s → i ∈ invocations (asyncStep s event).
Proof.
  intros Hin. unfold asyncStep.
  destruct (tornDown s); destruct event as [resolved h|h|]; simpl; try done.
  - by right.
  - unfold beginAsync. destruct resolved; simpl; [done | by right].
  - unfold backingFinished. destruct (decide (h ∈ inFlight s)); simpl;
      [by right | done].
  - apply elem_of_app. by right.
Qed.

Lemma invocations_runAsync events s i :
  i ∈ invocations s → i ∈ invocations (runAsync events s).
Proof.
  revert s. induction events as [|event events IH]; intros s Hin; simpl; [done|].
  apply IH. by apply invocations_asyncStep.
Qed.

Lemma timesInvoked_positive h outcome s :
  (h, outcome) ∈ invocations s → (1 ≤ timesInvoked h s)%nat.
Proof.
  intros Hin. unfold timesInvoked.
  assert ((h, outcome) ∈ filter (fun i : N * CompletionOutcome => fst i = h)
                                (invocations s)) as Hf
    by (by apply list_elem_of_filter).
  destruct (filter _ (invocations s)); [by apply elem_of_nil in Hf | simpl; lia].
Qed.

Lemma runAsync_Teardown events s :
  Teardown ∈ events → tornDown (runAsync events s) = true.
Proof.
  revert s. induction events as [|event events IH]; intros s Hin.
  - by apply elem_of_nil in Hin.
  - simpl. apply elem_of_cons in Hin as [<-|Hin]; [|by apply IH].
    assert (tornDown (asyncStep s Teardown) = true) as Htorn
      by (unfold asyncStep; by destruct (tornDown s) eqn:E).
    clear IH. revert Htorn. generalize (asyncStep s Teardown). clear s.
    induction events as [|event events IH]; intros s Htorn; simpl; [done|].
    apply IH. unfold asyncStep. rewrite Htorn. by destruct event.
Qed.

(** C7.  Exactly-once completion.  In every run of the asynchronous calls of
    a device (calls begun, calls finished by the backing device, teardown of
    the connection or the device) in which every call brings its own
    completion handler: no handler fires twice; a handler no call brought
    never fires; a handler a call brought has fired exactly once or its call
    is still in flight, so none is dropped; it has fired exactly once as
    soon as descriptor resolution failed, the backing device finished the
    call, or teardown happened; a handler whose call was in flight when
    teardown happened, or whose call failed descriptor resolution, has fired
    with the failure outcome. *)
Theorem completion_fires_exactly_once (events : list AsyncEvent) :
  NoDup (handlersOf events) →
  let s := runAsync events initialAsync in
  (∀ h, (timesInvoked h s ≤ 1)%nat) ∧
  (∀ h, h ∉ handlersOf events → timesInvoked h s = 0%nat) ∧
  (∀ h, h ∈ handlersOf events →
        (timesInvoked h s = 1%nat ∧ h ∉ inFlight s) ∨
        (timesInvoked h s = 0%nat ∧ h ∈ inFlight s)) ∧
  (∀ before resolved h after,
      events = before ++ BeginAsync resolved h :: after →
      resolved = false ∨ BackingFinished h ∈ after ∨ Teardown ∈ events →
      timesInvoked h s = 1%nat) ∧
  (∀ before after h,
      events = before ++ Teardown :: after →
      h ∈ inFlight (runAsync before initialAsync) →
      (h, Failed) ∈ invocations s) ∧
  (∀ before after h,
      events = before ++ BeginAsync false h :: after →
      (h, Failed) ∈ invocations s).
Proof.
  intros Hnodup s.
  pose proof (settled_run_initial events Hnodup) as Hs. fold s in Hs.
  pose proof Hs as (_ & Hcount & Htorn).
  assert (∀ h, (timesInvoked h s ≤ 1)%nat) as Hmost.
  { intros h. specialize (Hcount h). decide_memberships; lia. }
  assert (∀ before after h,
            events = before ++ BeginAsync false h :: after →
            (h, Failed) ∈ invocations s) as Hfailed.
  { intros before after h E. subst s. rewrite E.
    rewrite runAsync_app. simpl. apply invocations_runAsync.
    unfold asyncStep, beginAsync.
    destruct (tornDown (runAsync before initialAsync)); simpl; by left. }
  split; [exact Hmost|]. split; [|split; [|split; [|split; [|exact Hfailed]]]].
  - intros h Hout. specialize (Hcount h). decide_memberships; try done; lia.
  - intros h Hin. specialize (Hcount h).
    decide_memberships; try done; [right | left]; split; try done; lia.
  - intros before resolved h after E Hwhy.
    assert ((1 ≤ timesInvoked h s)%nat) as Hleast; [|specialize (Hmost h); lia].
    destruct Hwhy as [->|[Hfinished|Hteardown]].
    + eapply timesInvoked_positive, Hfailed, E.
    + apply list_elem_of_split in Hfinished as (a1 & a2 & ->).
      assert (events = (before ++ BeginAsync resolved h :: a1)
                         ++ BackingFinished h :: a2) as E'
        by (rewrite E, <- app_assoc; done).
      pose proof Hnodup as Hprefix. rewrite E', handlersOf_app in Hprefix.
      apply NoDup_app in Hprefix as (Hprefix & _ & _).
      pose proof (settled_run_initial _ Hprefix) as Hmid.
      assert (h ∈ handlersOf (before ++ BeginAsync resolved h :: a1)) as Hbrought.
      { rewrite handlersOf_app, handlersOf_cons. apply elem_of_app. right.
        apply elem_of_app. left. simpl. by left. }
      revert Hmid Hbrought.
      generalize (handlersOf (before ++ BeginAsync resolved h :: a1)).
      intros brought Hmid Hbrought.
      assert (∃ outcome,
                (h, outcome) ∈ invocations
                  (asyncStep (runAsync (before ++ BeginAsync resolved h :: a1)
                                initialAsync) (BackingFinished h)))
        as [outcome Hfired].
      { revert Hmid.
        generalize (runAsync (before ++ BeginAsync resolved h :: a1) initialAsync).
        intros mid Hmid.
        assert (h ∈ inFlight mid ∨
                ∃ outcome, (h, outcome) ∈ invocations mid) as [Hin|[outcome Hin]].
        { destruct Hmid as (_ & Hc & _). specialize (Hc h).
          destruct (decide (h ∈ inFlight mid)) as [|Hout]; [by left|]. right.
          destruct (decide (h ∈ brought)); [|done].
          unfold timesInvoked in Hc.
          destruct (filter (fun i : N * CompletionOutcome => fst i = h)
                      (invocations mid)) as [|[h0 outcome] rest] eqn:Ef;
            [simpl in Hc; lia|].
          assert ((h0, outcome) ∈ filter
                    (fun i : N * CompletionOutcome => fst i = h)
                    (invocations mid)) as Hf by (rewrite Ef; by left).
          apply list_elem_of_filter in Hf as [Hfst Hf]. simpl in Hfst. subst h0.
          eauto. }
        - destruct Hmid as (_ & _ & Htorn').
          unfold asyncStep. destruct (tornDown mid) eqn:Et.
          + rewrite Htorn' in Hin by done. by apply elem_of_nil in Hin.
          + unfold backingFinished. rewrite decide_True by done.
            exists Succeeded. simpl. by left.
        - exists outcome. by apply invocations_asyncStep. }
      eapply timesInvoked_positive.
      subst s. rewrite E', runAsync_app. simpl.
      apply invocations_runAsync. exact Hfired.
    + specialize (Hcount h).
      assert (h ∈ handlersOf events) as Hbrought.
      { rewrite E, handlersOf_app, handlersOf_cons. apply elem_of_app. right.
        apply elem_of_app. left. simpl. by left. }
      rewrite Htorn in Hcount by (by apply runAsync_Teardown).
      destruct (decide (h ∈ [])) as [Hin|_]; [by apply elem_of_nil in Hin|].
      destruct (decide (h ∈ handlersOf events)); [lia | done].
  - intros before after h E Hin. subst s. rewrite E.
    pose proof Hnodup as Hprefix. rewrite E, handlersOf_app in Hprefix.
    apply NoDup_app in Hprefix as (Hprefix & _ & _).
    pose proof (settled_run_initial _ Hprefix) as (_ & _ & Htorn').
    rewrite runAsync_app. simpl. apply invocations_runAsync.
    unfold asyncStep. destruct (tornDown (runAsync before initialAsync)) eqn:Et.
    + rewrite Htorn' in Hin by done. by apply elem_of_nil in Hin.
    + simpl. apply elem_of_app. left.
      apply list_elem_of_In, (in_map (fun x => (x, Failed))), list_elem_of_In. done.
Qed.

Lemma completion_fires_exactly_once_witness :
  let s := runAsync [BeginAsync true 1; BeginAsync false 2; BackingFinished 1;
                     BeginAsync true 3; Teardown; BackingFinished 3;
                     BeginAsync true 4] initialAsync in
  (∀ h, (timesInvoked h s ≤ 1)%nat) ∧
  (∀ h, h ∉ [1; 2; 3; 4] → timesInvoked h s = 0%nat) ∧
  (∀ h, h ∈ [1; 2; 3; 4] →
        (timesInvoked h s = 1%nat ∧ h ∉ inFlight s) ∨
        (timesInvoked h s = 0%nat ∧ h ∈ inFlight s)).
Proof.
  intros s.
  destruct (completion_fires_exactly_once
              [BeginAsync true 1; BeginAsync false 2; BackingFinished 1;
               BeginAsync true 3; Teardown; BackingFinished 3;
               BeginAsync true 4]) as (Hmost & Hnone & Hall & _).
  - simpl. apply (bool_decide_unpack _). vm_compute. reflexivity.
  - split; [exact Hmost|]. split; [exact Hnone | exact Hall].
Defined.

Example completion_example :
  invocations
    (runAsync [BeginAsync true 1; BeginAsync false 2; BackingFinished 1;
               BeginAsync true 3; Teardown; BackingFinished 3;
               BeginAsync true 4] initialAsync)
  = [(4, Failed); (3, Failed); (1, Succeeded); (2, Failed)].
Proof. reflexivity. Qed.

(** * Further properties of the embedded code *)

(** ** RemoteTexture::createView *)

Lemma createViewConverted_Completed
    assertionsEnabled this converted identifier s s' :
  RemoteTexture.createViewConverted assertionsEnabled this converted identifier s
    = Completed s' →
  ∃ backingDescriptor,
    converted = Some backingDescriptor ∧
    objectRegistry s !! identifier = None ∧
    objectHeap s !! identifier = None ∧
    objectRegistry s'
      = <[identifier := mkObject TextureView (nextBacking s)]> (objectRegistry s) ∧
    objectHeap s'
      = <[identifier := mkRemoteObject TextureView (nextBacking s) identifier]>
          (objectHeap s) ∧
    backingCalls s'
      = CallTextureCreateView (m_backing this) backingDescriptor (nextBacking s)
          :: backingCalls s ∧
    constructed s' = identifier :: constructed s ∧
    nextBacking s' = N.succ (nextBacking s).
Proof.
  intros H. unfold RemoteTexture.createViewConverted in H.
  outcome_inv H. destruct converted as [backingDescriptor|]; [|discriminate].
  simpl in H. outcome_inv H. destruct a0 as [view s3].
  unfold RemoteTextureView.create in Ha0.
  apply (constructProxy_Completed TextureView) in Ha0 as (Hfresh & -> & ->).
  outcome_inv H. apply heap_addObject_Completed in Ha0 as [Hheap ->].
  injection H as <-. exists backingDescriptor. by repeat split.
Qed.

(** X2.  [createView] with a descriptor whose identifiers all resolve, under
    an identifier that neither store knows, completes: the backing texture
    is asked once for a view with the converted descriptor, and the view it
    returns is owned by the heap and resolved by the registry under the new
    identifier, as a texture view. *)
Theorem createView_creates_view
    assertionsEnabled (this : RemoteObject) (descriptor : Descriptor)
    (converted : BackingDescriptor) (identifier : N) (s : GPUProcess) :
  ObjectRegistry.convertFromBacking (objectRegistry s) descriptor = Some converted →
  objectRegistry s !! identifier = None →
  objectHeap s !! identifier = None →
  ∃ s',
    RemoteTexture.createView assertionsEnabled this (Some descriptor) identifier s
      = Completed s' ∧
    objectHeap s' !! identifier
      = Some (mkRemoteObject TextureView (nextBacking s) identifier) ∧
    objectRegistry s' !! identifier
      = Some (mkObject TextureView (nextBacking s)) ∧
    backingCalls s'
      = CallTextureCreateView (m_backing this) converted (nextBacking s)
          :: backingCalls s ∧
    constructed s' = identifier :: constructed s.
Proof.
  intros Hconv Hreg Hheap.
  eexists. split.
  - unfold RemoteTexture.createView. rewrite Hconv.
    replace (ASSERT assertionsEnabled (bool_decide (is_Some (Some converted))))
      with (Completed tt) by (by destruct assertionsEnabled).
    simpl. unfold RemoteTexture.createViewConverted.
    replace (ASSERT assertionsEnabled (bool_decide (is_Some (Some converted))))
      with (Completed tt) by (by destruct assertionsEnabled).
    simpl. unfold RemoteTextureView.create, ResourceProxy.constructor,
      ObjectRegistry.addObject. simpl. rewrite Hreg. simpl.
    unfold ObjectHeap.addObject. simpl. rewrite Hheap. simpl. reflexivity.
  - simpl. by rewrite !lookup_insert_eq.
Qed.

Lemma createView_creates_view_witness :
  ∃ s',
    RemoteTexture.createView false (mkRemoteObject Texture 0 1)
      (Some (mkDescriptor "v" [1])) 2
      (mkGPUProcess {[1 := mkObject Texture 0]}
         {[1 := mkRemoteObject Texture 0 1]} [] 1 [1] [])
      = Completed s' ∧
    objectHeap s' !! 2 = Some (mkRemoteObject TextureView 1 2) ∧
    objectRegistry s' !! 2 = Some (mkObject TextureView 1) ∧
    backingCalls s'
      = [CallTextureCreateView 0 (mkBackingDescriptor "v" [mkObject Texture 0]) 1] ∧
    constructed s' = [2; 1].
Proof.
  apply (createView_creates_view false (mkRemoteObject Texture 0 1)
           (mkDescriptor "v" [1])
           (mkBackingDescriptor "v" [mkObject Texture 0]) 2
           (mkGPUProcess {[1 := mkObject Texture 0]}
              {[1 := mkRemoteObject Texture 0 1]} [] 1 [1] [])).
  - vm_compute. reflexivity.
  - vm_compute. reflexivity.
  - vm_compute. reflexivity.
Defined.

(** X3.  Whatever state it starts from, a [createView] that completes only
    adds: every entry the registry and the heap had is still there with the
    same content, no identifier other than the new one is touched, and the
    native objects have seen no call or exactly one [createView] call, made
    on the proxy's own backing texture. *)
Theorem createView_only_adds
    assertionsEnabled (this : RemoteObject) (descriptor : option Descriptor)
    (identifier : N) (s s' : GPUProcess) :
  RemoteTexture.createView assertionsEnabled this descriptor identifier s
    = Completed s' →
  (∀ (other : N) object,
      objectRegistry s !! other = Some object →
      objectRegistry s' !! other = Some object) ∧
  (∀ (other : N) proxy,
      objectHeap s !! other = Some proxy →
      objectHeap s' !! other = Some proxy) ∧
  (∀ other : N, other ≠ identifier →
      objectRegistry s' !! other = objectRegistry s !! other ∧
      objectHeap s' !! other = objectHeap s !! other) ∧
  (backingCalls s' = backingCalls s ∨
   ∃ converted result,
     backingCalls s'
       = CallTextureCreateView (m_backing this) converted result :: backingCalls s).
Proof.
  intros H.
  assert (s' = s ∨
          ∃ converted,
            RemoteTexture.createViewConverted assertionsEnabled this converted
              identifier s = Completed s') as [->|[converted Hc]].
  { unfold RemoteTexture.createView in H. destruct descriptor as [d|].
    - outcome_inv H.
      destruct (ObjectRegistry.convertFromBacking (objectRegistry s) d) eqn:E.
      + right. eauto.
      + left. by injection H as <-.
    - right. eauto. }
  - repeat split; try done. by left.
  - apply createViewConverted_Completed in Hc
      as (bd & _ & Hreg & Hheap & -> & -> & -> & _ & _).
    repeat split.
    + intros other object Hother. rewrite lookup_insert_ne; [done|congruence].
    + intros other proxy Hother. rewrite lookup_insert_ne; [done|congruence].
    + by rewrite lookup_insert_ne.
    + by rewrite lookup_insert_ne.
    + right. eauto.
Qed.

Lemma createView_only_adds_witness :
  ∃ s',
    RemoteTexture.createView false (mkRemoteObject Texture 0 1)
      (Some (mkDescriptor "v" [])) 2
      (mkGPUProcess {[1 := mkObject Texture 0]}
         {[1 := mkRemoteObject Texture 0 1]} [] 1 [1] [])
      = Completed s' ∧
    objectRegistry s' !! 1 = Some (mkObject Texture 0) ∧
    objectHeap s' !! 1 = Some (mkRemoteObject Texture 0 1).
Proof.
  eexists. split; [vm_compute; reflexivity|].
  edestruct (createView_only_adds false (mkRemoteObject Texture 0 1)
               (Some (mkDescriptor "v" [])) 2
               (mkGPUProcess {[1 := mkObject Texture 0]}
                  {[1 := mkRemoteObject Texture 0 1]} [] 1 [1] []))
    as (Hreg & Hheap & _).
  - vm_compute. reflexivity.
  - split; [apply Hreg | apply Hheap]; vm_compute; reflexivity.
Defined.

(** X8.  A [destroy] or a [setLabel] handled before does not change what
    [createView] does to the stores: it fails with the same fault or
    completes with the same registry, the same heap and the same
    constructor log.  A destroyed texture still hands out views. *)
Theorem createView_after_forwarding
    assertionsEnabled (this : RemoteObject) (descriptor : option Descriptor)
    (identifier : N) (label : string) (s : GPUProcess) :
  sameStores
    (RemoteTexture.createView assertionsEnabled this descriptor identifier
       (RemoteTexture.destroy this s))
    (RemoteTexture.createView assertionsEnabled this descriptor identifier s) ∧
  sameStores
    (RemoteTexture.createView assertionsEnabled this descriptor identifier
       (RemoteTexture.setLabel this label s))
    (RemoteTexture.createView assertionsEnabled this descriptor identifier s).
Proof.
  assert (∀ call,
    sameStores
      (RemoteTexture.createView assertionsEnabled this descriptor identifier
         (callBacking call s))
      (RemoteTexture.createView assertionsEnabled this descriptor identifier s))
    as Hany.
  { intros call.
    assert (∀ converted,
      sameStores
        (RemoteTexture.createViewConverted assertionsEnabled this converted
           identifier (callBacking call s))
        (RemoteTexture.createViewConverted assertionsEnabled this converted
           identifier s)) as Hconverted.
    { intros converted. unfold RemoteTexture.createViewConverted.
      destruct converted as [converted|]; destruct assertionsEnabled; simpl;
        try done;
        unfold RemoteTextureView.create, ResourceProxy.constructor,
          ObjectRegistry.addObject; simpl;
        (destruct (objectRegistry s !! identifier); simpl; [done|]);
        unfold ObjectHeap.addObject; simpl;
        (destruct (objectHeap s !! identifier); simpl; done). }
    unfold RemoteTexture.createView. destruct descriptor as [d|]; [|apply Hconverted].
    simpl.
    destruct (ObjectRegistry.convertFromBacking (objectRegistry s) d) eqn:E.
    - replace (ASSERT assertionsEnabled (bool_decide (is_Some (Some b))))
        with (Completed tt) by (by destruct assertionsEnabled).
      simpl. apply Hconverted.
    - destruct assertionsEnabled; simpl; done. }
  split; apply Hany.
Qed.

(** ** Constructors, destructors and [create] *)

(** X4.  Construction and destruction are inverse on the registry: the
    constructor of a RemoteTexture or a RemoteBindGroupLayout that completes
    makes the registry resolve the identifier to the proxy's native object,
    typed by the proxy's class, and the destructor of that proxy then gives
    back the registry the constructor started from.  Neither touches the
    heap. *)
Theorem constructor_destructor_round_trip
    (backing : N) (identifier : N) (s : GPUProcess) this s1 :
  RemoteTexture.constructor backing identifier s = Completed (this, s1) ∨
  RemoteBindGroupLayout.constructor backing identifier s = Completed (this, s1) →
  objectRegistry s1 !! identifier = Some (mkObject (remoteKind this) backing) ∧
  m_backing this = backing ∧
  objectHeap s1 = objectHeap s ∧
  objectRegistry (RemoteTexture.destructor this s1) = objectRegistry s ∧
  objectRegistry (RemoteBindGroupLayout.destructor this s1) = objectRegistry s ∧
  objectHeap (RemoteTexture.destructor this s1) = objectHeap s ∧
  objectHeap (RemoteBindGroupLayout.destructor this s1) = objectHeap s.
Proof.
  intros Hctor.
  assert (∃ kind, constructProxy kind backing identifier s = Completed (this, s1))
    as [kind Hc].
  { destruct Hctor as [Hc|Hc]; [by exists Texture | by exists BindGroupLayout]. }
  apply constructProxy_Completed in Hc as (Hfresh & -> & ->).
  unfold RemoteTexture.destructor, RemoteBindGroupLayout.destructor,
    ObjectRegistry.removeObject. simpl.
  rewrite lookup_insert_eq, delete_insert_id by done. by repeat split.
Qed.

Lemma constructor_destructor_round_trip_witness :
  ∃ this s1,
    RemoteBindGroupLayout.constructor 5 3
      (mkGPUProcess {[1 := mkObject Texture 0]}
         {[1 := mkRemoteObject Texture 0 1]} [] 6 [1] []) = Completed (this, s1) ∧
    objectRegistry s1 !! 3 = Some (mkObject (remoteKind this) 5) ∧
    objectRegistry (RemoteBindGroupLayout.destructor this s1)
      = {[1 := mkObject Texture 0]}.
Proof.
  eexists. eexists. split; [vm_compute; reflexivity|].
  edestruct (constructor_destructor_round_trip 5 3
               (mkGPUProcess {[1 := mkObject Texture 0]}
                  {[1 := mkRemoteObject Texture 0 1]} [] 6 [1] []))
    as (Hreg & _ & _ & _ & Hdtor & _).
  - right. vm_compute. reflexivity.
  - split; [exact Hreg | exact Hdtor].
Defined.

(** X7.  A constructor registers the proxy and leaves the heap to its
    caller.  In a state reached by handling messages, after the constructor
    of a RemoteTexture or a RemoteBindGroupLayout, or [RemoteDevice::create]
    or [RemoteRenderPassEncoder::create], has completed, the registry
    resolves the identifier while the heap has no entry for it: the two
    stores disagree until the caller adds the proxy to the heap (as
    [createView] does on its next line); [ObjectHeap::addObject] then
    succeeds and the stores agree again. *)
Theorem construction_leaves_heap_to_caller
    assertionsEnabled messages (s : GPUProcess) (backing identifier : N) this s1 :
  run assertionsEnabled messages initialProcess = Completed s →
  RemoteTexture.constructor backing identifier s = Completed (this, s1) ∨
  RemoteBindGroupLayout.constructor backing identifier s = Completed (this, s1) ∨
  RemoteDevice.create backing identifier s = Completed (this, s1) ∨
  RemoteRenderPassEncoder.create backing identifier s = Completed (this, s1) →
  m_identifier this = identifier ∧
  m_backing this = backing ∧
  is_Some (objectRegistry s1 !! identifier) ∧
  objectHeap s1 = objectHeap s ∧
  objectHeap s1 !! identifier = None ∧
  ¬ coherent s1 ∧
  ∃ heap, ObjectHeap.addObject this (objectHeap s1) = Completed heap ∧
          coherent (setHeap heap s1).
Proof.
  intros Hrun Hcreate.
  assert (wellFormed s) as Hwf
    by (eapply wellFormed_run; [apply wellFormed_initial | exact Hrun]).
  assert (∃ kind, constructProxy kind backing identifier s = Completed (this, s1))
    as [kind Hc].
  { destruct Hcreate as [Hc|[Hc|[Hc|Hc]]];
      [by exists Texture | by exists BindGroupLayout
      | by exists Device | by exists RenderPassEncoder]. }
  apply constructProxy_Completed in Hc as (Hfresh & -> & ->). simpl.
  assert (objectHeap s !! identifier = None) as Hheap.
  { destruct Hwf as (Hh & _ & _).
    destruct (objectHeap s !! identifier) as [proxy|] eqn:E; [|done].
    destruct (Hh _ _ E) as [_ ?]. congruence. }
  split; [done|]. split; [done|].
  split; [rewrite lookup_insert_eq; eauto|].
  split; [done|]. split; [done|]. split.
  - intros Hcoherent. destruct (Hcoherent identifier) as [Hto _]. simpl in Hto.
    destruct Hto as (proxy & Hproxy & _); [rewrite lookup_insert_eq; eauto|].
    congruence.
  - unfold ObjectHeap.addObject. simpl. rewrite Hheap. eexists. split; [done|].
    apply wellFormed_coherent.
    apply (wellFormed_added s _ (mkRemoteObject kind backing identifier)); done.
Qed.

Lemma construction_leaves_heap_to_caller_witness :
  ∃ s this s1,
    run false [Create Texture (mkDescriptor "t" []) 1] initialProcess = Completed s ∧
    RemoteBindGroupLayout.constructor 9 4 s = Completed (this, s1) ∧
    objectHeap s1 !! 4 = None ∧
    is_Some (objectRegistry s1 !! 4) ∧
    ¬ coherent s1.
Proof.
  eexists. eexists. eexists.
  split; [vm_compute; reflexivity|].
  split; [vm_compute; reflexivity|].
  edestruct (fun s => construction_leaves_heap_to_caller false
                        [Create Texture (mkDescriptor "t" []) 1] s 9 4)
    as (_ & _ & Hreg & _ & Hheap & Hnot & _).
  - vm_compute. reflexivity.
  - right. left. vm_compute. reflexivity.
  - split; [exact Hheap|]. split; [exact Hreg | exact Hnot].
Defined.

(** ** The coders of RemoteVideoFrameProxy::Properties *)

(** X5.  [encode] appends to what the encoder holds, and what it appends
    determines the five fields it writes and nothing else: two [Properties]
    values have the same encoding exactly when they agree on presentation
    time, mirroring, rotation, size and pixel format, whatever their
    references. *)
Theorem encode_determines_written_fields (p q : Properties) (encoder : Encoder) :
  encode p encoder = encoder ++ encode p [] ∧
  (encode p encoder = encode q encoder ↔
   presentationTime p = presentationTime q ∧
   isMirrored p = isMirrored q ∧
   rotation p = rotation q ∧
   size p = size q ∧
   pixelFormat p = pixelFormat q).
Proof.
  split; [done|]. unfold encode. split.
  - intros H. apply app_inv_head in H. injection H as -> -> -> -> ->. done.
  - intros (-> & -> & -> & -> & ->). done.
Qed.

(** X6.  [decode] takes its [return std::nullopt] exit exactly when the
    decoder is invalid after the five reads: on a message body that is too
    short or holds an argument of another type where one of the five is
    expected, and on every body when the decoder was invalid before.  On a
    body that begins with the five arguments the decoder is valid and the
    exit is not taken, whatever follows them. *)
Theorem decode_nullopt_exit (body : list Argument) :
  (decode (decoderFor body) = Completed None ↔ hasPropertiesPrefix body = false) ∧
  decode (mkDecoder body false) = Completed None.
Proof.
  split; [|reflexivity].
  destruct body as [|[]]; try (split; [reflexivity | done]).
  destruct body as [|[]]; try (split; [reflexivity | done]).
  destruct body as [|[]]; try (split; [reflexivity | done]).
  destruct body as [|[]]; try (split; [reflexivity | done]).
  destruct body as [|[]]; try (split; [reflexivity | done]).
  split; [discriminate | discriminate].
Qed.
